(** * Neopixel: a shallow embedding of [neopixel.py]

    The pixel buffer of the driver ([class Neopixel]) is embedded as a record
    with explicit state passing.  Python exceptions are values of [exn]; a
    method of the class is a computation in the monad [M], which returns the
    buffer as it is when the method returns or raises, so that writes made
    before an exception stay visible.

    Numbers: Python integers are [Z].  The floating-point expressions of the
    source ([brightness / 255], [j / (end_pixel - start_pixel)]) are embedded
    as exact rationals [Q], and [round] as rounding to nearest with ties to
    even.  For the scaling of a channel in [0,255] by a brightness in [1,255]
    the exact result is the one of IEEE 754 arithmetic, in binary64 and in
    binary32 ([ieee_scale_exact]).  A slot of the array of words holds 32
    bits; the words of colours with channels in [0,255] fit.

    The two PIO programs of [neopixel.py] are embedded as lists of
    instructions, run by a model of the state machine that has what they
    use: side-set, delays, the output shift register with autopull, the
    scratch register X and the TX FIFO ([Pio]).  The functions of [main.py]
    are computations on the one strip of the script ([Main]). *)

From Stdlib Require Import ZArith QArith Qround Ascii String Lia SpecFloat.
From stdpp Require Import base numbers list list_monad strings gmap.

Local Open Scope Z_scope.

(** ** The Python operations the driver relies on *)

Module Py.

Inductive exn : Type :=
| IndexError
| ValueError
| TypeError
| ZeroDivisionError.

(** An expression that may raise. *)
Definition res (A : Type) : Type := (exn + A)%type.

Definition bind {A B : Type} (r : res A) (k : A -> res B) : res B :=
  match r with
  | inl e => inl e
  | inr a => k a
  end.

(** [round(x)]: nearest integer, a tie goes to the even neighbour. *)
Definition round (x : Q) : Z :=
  let f := Qfloor x in
  match Qcompare (x - inject_Z f) (1 # 2) with
  | Lt => f
  | Gt => f + 1
  | Eq => if Z.even f then f else f + 1
  end.

(** [a / b] on numbers (true division). *)
Definition truediv (a b : Q) : res Q :=
  if Qeq_bool b 0 then inl ZeroDivisionError else inr (a / b)%Q.

(** [a // b] on integers (floor division). *)
Definition floordiv (a b : Z) : res Z :=
  if b =? 0 then inl ZeroDivisionError else inr (a / b).

(** [a << n] on integers. *)
Definition lshift (a n : Z) : res Z :=
  if n <? 0 then inl ValueError else inr (Z.shiftl a n).

(** [t[i]] for a tuple [t] and a literal index [i >= 0]. *)
Definition getitem (t : list Z) (i : nat) : res Z :=
  match t !! i with
  | Some v => inr v
  | None => inl IndexError
  end.

(** [s.index(c)] for a one-character [c]: position of the first occurrence. *)
Fixpoint str_index (c : ascii) (s : string) : res Z :=
  match s with
  | EmptyString => inl ValueError
  | String d s' =>
      if Ascii.eqb c d then inr 0
      else bind (str_index c s') (fun k => inr (k + 1))
  end.

(** [set(s)] for a string [s]. *)
Definition set_of_str (s : string) : gset ascii :=
  list_to_set (list_ascii_of_string s).

(** Subscript of a sequence of length [len] by [i]: a negative subscript
    counts from the end; out of range is [IndexError]. *)
Definition subscript (len : nat) (i : Z) : res nat :=
  let i' := if i <? 0 then i + Z.of_nat len else i in
  if (i' <? 0) || (Z.of_nat len <=? i') then inl IndexError
  else inr (Z.to_nat i').

(** Bound of a slice of a sequence of length [len]: a negative bound
    counts from the end, and the result is clipped to [0 .. len]. *)
Definition slice_bound (len : nat) (i : Z) : nat :=
  let i' := if i <? 0 then i + Z.of_nat len else i in
  if i' <? 0 then 0%nat
  else if Z.of_nat len <? i' then len
  else Z.to_nat i'.

(** [l[i:]] and [l[:i]]. *)
Definition slice_from {A : Type} (l : list A) (i : Z) : list A :=
  drop (slice_bound (length l) i) l.

Definition slice_to {A : Type} (l : list A) (i : Z) : list A :=
  take (slice_bound (length l) i) l.

(** [range(a, b)] as the list of its values. *)
Definition range (a b : Z) : list Z := seqZ a (b - a).

(** A value stored in an [array.array("I", ...)] slot keeps its low 32 bits. *)
Definition to_uint32 (v : Z) : Z := Z.land v 4294967295.

End Py.

Import Py.

(** ** The PIO state machine, as far as the driver uses it *)

Inductive pio_program : Type := ws2812 | sk6812.

Record StateMachine : Type := mkStateMachine {
  sm_id : Z;
  sm_program : pio_program;
  sm_freq : Z;
  sm_pin : Z;
  sm_active : bool;
  (** words handed to [put], with the shift given along, oldest first *)
  sm_tx : list (Z * Z)
}.

(** [self.shift]: the dictionary with the keys 'R', 'G', 'B' and 'W'. *)
Record Shift : Type := mkShift {
  shift_R : Z;
  shift_G : Z;
  shift_B : Z;
  shift_W : Z
}.

(** ** [class Neopixel] *)

Module Neopixel.

Record t : Type := mk {
  pixels : list Z;
  mode : gset ascii;
  sm : StateMachine;
  shift : Shift;
  num_leds : Z;
  delay : Q;
  brightnessvalue : Z
}.

Definition with_pixels (p : list Z) (s : t) : t :=
  mk p (mode s) (sm s) (shift s) (num_leds s) (delay s) (brightnessvalue s).

Definition with_brightnessvalue (b : Z) (s : t) : t :=
  mk (pixels s) (mode s) (sm s) (shift s) (num_leds s) (delay s) b.

Definition with_sm (m : StateMachine) (s : t) : t :=
  mk (pixels s) (mode s) m (shift s) (num_leds s) (delay s) (brightnessvalue s).

(** A method body: runs on the object and returns it with the outcome. *)
Definition M (A : Type) : Type := t -> res A * t.

Definition ret {A : Type} (a : A) : M A := fun s => (inr a, s).

Definition raise {A : Type} (e : exn) : M A := fun s => (inl e, s).

Definition bind {A B : Type} (m : M A) (k : A -> M B) : M B :=
  fun s =>
    match m s with
    | (inl e, s') => (inl e, s')
    | (inr a, s') => k a s'
    end.

Definition lift {A : Type} (r : res A) : M A := fun s => (r, s).

Definition gets {A : Type} (f : t -> A) : M A := fun s => (inr (f s), s).

Definition modify (f : t -> t) : M unit := fun s => (inr tt, f s).

Declare Scope py_scope.
Delimit Scope py_scope with py.
Notation "x <- m ;; k" := (bind m (fun x => k))
  (at level 63, m at next level, right associativity) : py_scope.
Local Open Scope py_scope.

(** [rp2.StateMachine(state_machine, program, freq=..., sideset_base=Pin(pin))] *)
Definition new_sm (state_machine : Z) (program : pio_program) (freq pin : Z)
    : StateMachine :=
  mkStateMachine state_machine program freq pin false [].

(** [sm.active(1)] *)
Definition activate (m : StateMachine) : StateMachine :=
  mkStateMachine (sm_id m) (sm_program m) (sm_freq m) (sm_pin m) true (sm_tx m).

(** [__init__]: [state_machine] and [pin] only name the hardware. *)
Definition __init__ (num_leds : Z) (state_machine : Z) (pin : Z)
    (mode : string) (delay : Q) : res t :=
  let pixels := replicate (Z.to_nat num_leds) 0 in
  let mode_set := set_of_str mode in
  let index c := str_index c mode in
  Py.bind
    (if bool_decide ("W"%char ∈ mode_set) then
       let m := new_sm state_machine sk6812 8000000 pin in
       Py.bind (index "R"%char) (fun r =>
       Py.bind (index "G"%char) (fun g =>
       Py.bind (index "B"%char) (fun b =>
       Py.bind (index "W"%char) (fun w =>
       inr (m, mkShift (Z.lxor r 3 * 8) (Z.lxor g 3 * 8)
                       (Z.lxor b 3 * 8) (Z.lxor w 3 * 8))))))
     else
       let m := new_sm state_machine ws2812 8000000 pin in
       Py.bind (index "R"%char) (fun r =>
       Py.bind (index "G"%char) (fun g =>
       Py.bind (index "B"%char) (fun b =>
       inr (m, mkShift ((Z.lxor r 3 - 1) * 8) ((Z.lxor g 3 - 1) * 8)
                       ((Z.lxor b 3 - 1) * 8) 0)))))
    (fun '(m, sh) =>
       inr (mk pixels mode_set (activate m) sh num_leds delay 255)).

(** [brightness]: [None] is the unset argument; the result is the value
    the method returns ([None] where it returns nothing). *)
Definition brightness (brightness : option Z) : M (option Z) :=
  match brightness with
  | None => v <- gets brightnessvalue ;; ret (Some v)
  | Some b =>
      let b := if b <? 1 then 1 else b in
      let b := if 255 <? b then 255 else b in
      _ <- modify (with_brightnessvalue b) ;; ret None
  end.

(** [round(c * (self.brightness() / 255))] *)
Definition scaled (c : Z) : M Z :=
  b <- brightness None ;;
  match b with
  | None => raise TypeError
  | Some b =>
      f <- lift (truediv (inject_Z b) (inject_Z 255)) ;;
      ret (round (inject_Z c * f))
  end.

(** [self.pixels[pixel_num] = v] *)
Definition store (pixel_num : Z) (v : Z) : M unit :=
  p <- gets pixels ;;
  i <- lift (subscript (length p) pixel_num) ;;
  modify (with_pixels (<[i := to_uint32 v]> p)).

Definition has_white (rgb_w : list Z) : M bool :=
  m <- gets mode ;;
  ret (bool_decide (length rgb_w = 4%nat) && bool_decide ("W"%char ∈ m)).

Definition set_pixel (pixel_num : Z) (rgb_w : list Z) : M unit :=
  pos <- gets shift ;;
  red <- (c <- lift (getitem rgb_w 0) ;; scaled c) ;;
  green <- (c <- lift (getitem rgb_w 1) ;; scaled c) ;;
  blue <- (c <- lift (getitem rgb_w 2) ;; scaled c) ;;
  w <- has_white rgb_w ;;
  white <- (if w then c <- lift (getitem rgb_w 3) ;; scaled c else ret 0) ;;
  ww <- lift (lshift white (shift_W pos)) ;;
  bb <- lift (lshift blue (shift_B pos)) ;;
  rr <- lift (lshift red (shift_R pos)) ;;
  gg <- lift (lshift green (shift_G pos)) ;;
  store pixel_num (Z.lor (Z.lor (Z.lor ww bb) rr) gg).

(** A [for] loop over the values [xs], without [break]. *)
Fixpoint for_each {A : Type} (xs : list A) (body : A -> M unit) : M unit :=
  match xs with
  | [] => ret tt
  | x :: xs' => _ <- body x ;; for_each xs' body
  end.

Definition set_pixel_line (pixel1 pixel2 : Z) (rgb_w : list Z) : M unit :=
  for_each (range pixel1 (pixel2 + 1)) (fun i => set_pixel i rgb_w).

(** [fill]; the pause [time.sleep(self.delay)] at its end changes nothing
    in the object. *)
Definition fill (rgb_w : list Z) : M unit :=
  n <- gets num_leds ;;
  for_each (range 0 n) (fun i => set_pixel i rgb_w).

(** [rotate_left]: [None] is the argument [None]; a call that leaves the
    argument out is [rotate_left (Some 1)], by the default of the
    parameter. *)
Definition rotate_left (num_of_pixels : option Z) : M unit :=
  let num_of_pixels :=
    match num_of_pixels with None => 1 | Some k => k end in
  p <- gets pixels ;;
  modify (with_pixels (slice_from p num_of_pixels ++ slice_to p num_of_pixels)).

Definition rotate_right (num_of_pixels : option Z) : M unit :=
  let num_of_pixels :=
    match num_of_pixels with None => 1 | Some k => k end in
  let num_of_pixels := -1 * num_of_pixels in
  p <- gets pixels ;;
  modify (with_pixels (slice_from p num_of_pixels ++ slice_to p num_of_pixels)).

Definition put (w cut : Z) (m : StateMachine) : StateMachine :=
  mkStateMachine (sm_id m) (sm_program m) (sm_freq m) (sm_pin m)
                 (sm_active m) (sm_tx m ++ [(w, cut)]).

(** [show]: every word goes to the state machine, in index order. *)
Definition show : M unit :=
  m <- gets mode ;;
  let cut := if bool_decide ("W"%char ∈ m) then 0 else 8 in
  n <- gets num_leds ;;
  for_each (range 0 n) (fun i =>
    p <- gets pixels ;;
    k <- lift (subscript (length p) i) ;;
    w <- lift (getitem p k) ;;
    modify (fun s => with_sm (put w cut (sm s)) s)).

(** [round((b[k] - a[k]) * fraction + a[k])], the channel [k] of the colour
    between [a] and [b]. *)
Definition lerp (a b : list Z) (k : nat) (fraction : Q) : res Z :=
  Py.bind (getitem b k) (fun y =>
  Py.bind (getitem a k) (fun x =>
  Py.bind (getitem a k) (fun x' =>
  inr (round (inject_Z (y - x) * fraction + inject_Z x'))))).

(** The colour between [a] and [b] at [fraction], with the white channel
    when the buffer and [a] have one. *)
Definition blend (a b : list Z) (fraction : Q) : M (list Z) :=
  red <- lift (lerp a b 0 fraction) ;;
  green <- lift (lerp a b 1 fraction) ;;
  blue <- lift (lerp a b 2 fraction) ;;
  w <- has_white a ;;
  if w then
    white <- lift (lerp a b 3 fraction) ;;
    ret [red; green; blue; white]
  else ret [red; green; blue].

Definition set_pixel_line_gradient (pixel1 pixel2 : Z)
    (left_rgb_w right_rgb_w : list Z) : M unit :=
  if pixel2 - pixel1 =? 0 then ret tt
  else
    let right_pixel := Z.max pixel1 pixel2 in
    let left_pixel := Z.min pixel1 pixel2 in
    for_each (range 0 (right_pixel - left_pixel + 1)) (fun i =>
      fraction <- lift (truediv (inject_Z i)
                                (inject_Z (right_pixel - left_pixel))) ;;
      c <- blend left_rgb_w right_rgb_w fraction ;;
      set_pixel (left_pixel + i) c).

(** The variables of [segment_gradient] that its loops assign. *)
Record locals : Type := mkLocals {
  start_pixel : Z;
  end_pixel : Z;
  reverse : bool
}.

(** [c[i]] for the list of colours. *)
Definition getcolor (c : list (list Z)) (i : Z) : res (list Z) :=
  Py.bind (subscript (length c) i) (fun k =>
  match c !! k with
  | Some v => inr v
  | None => inl IndexError
  end).

(** One pass through the body of the inner loop of [segment_gradient];
    the boolean is [true] when the pass ends in [break]. *)
Definition segment_step (color_list : list (list Z)) (pixel2 step : Z)
    (rainbow : bool) (i : Z) (color : list Z) (j : Z) (l : locals)
    : M (locals * bool) :=
  let start_pixel := i * step in
  let first_rgb_w := color in
  let end_pixel := start_pixel + step in
  es <- lift (if end_pixel >=? pixel2
              then Py.bind (getcolor color_list 0) (fun c => inr (pixel2, c))
              else Py.bind (getcolor color_list (i + 1))
                           (fun c => inr (end_pixel, c))) ;;
  let end_pixel := fst es in
  let second_rgb_w := snd es in
  fraction <- lift (truediv (inject_Z j)
                            (inject_Z (end_pixel - start_pixel))) ;;
  c <- blend first_rgb_w second_rgb_w fraction ;;
  _ <- (if negb (reverse l) then set_pixel (start_pixel + j) c
        else set_pixel (end_pixel - j) c) ;;
  if rainbow then
    ret (mkLocals start_pixel end_pixel (reverse l),
         end_pixel + j >? pixel2 + 2)
  else
    ret (mkLocals end_pixel pixel2 true, false).

(** The inner loop, over the values [js] of [j]. *)
Fixpoint segment_inner (body : Z -> locals -> M (locals * bool))
    (js : list Z) (l : locals) : M locals :=
  match js with
  | [] => ret l
  | j :: js' =>
      r <- body j l ;;
      if snd r then ret (fst r) else segment_inner body js' (fst r)
  end.

(** The outer loop, over the colours left, [i] being the index of the
    first of them. *)
Fixpoint segment_outer (color_list : list (list Z)) (pixel2 step : Z)
    (rainbow : bool) (i : Z) (rest : list (list Z)) (l : locals)
    : M unit :=
  match rest with
  | [] => ret tt
  | color :: rest' =>
      l' <- segment_inner
              (segment_step color_list pixel2 step rainbow i color)
              (range 0 (end_pixel l - start_pixel l + 1)) l ;;
      segment_outer color_list pixel2 step rainbow (i + 1) rest' l'
  end.

(** [segment_gradient]; a call that leaves arguments out has [pixel1 = 0],
    [pixel2 = 15], [reverse = true] and [rainbow = false]. *)
Definition segment_gradient (color_list : list (list Z))
    (pixel1 pixel2 : Z) (reverse rainbow : bool) : M unit :=
  if pixel2 - pixel1 =? 0 then ret tt
  else
    let divs := Z.of_nat (length color_list) in
    step <- lift (floordiv (pixel2 + 1) divs) ;;
    let start_pixel := pixel1 in
    let end_pixel := step in
    let rainbow := if divs =? 4 then true else rainbow in
    let reverse := if divs =? 4 then false else reverse in
    segment_outer color_list pixel2 step rainbow 0 color_list
                  (mkLocals start_pixel end_pixel reverse).

End Neopixel.

Import Neopixel.
Local Open Scope py_scope.

(** ** The PIO programs [ws2812] and [sk6812] *)

(** The two programs of [neopixel.py] as lists of instructions, and the part
    of the PIO state machine that runs them: the program counter, the scratch
    register X, the output shift register with the count of the bits shifted
    out of it, and the words waiting in the TX FIFO.  An instruction holds
    the side-set pin at its [side] value for [delay + 1] cycles.  The output
    shift register shifts to the left ([out_shiftdir=SHIFT_LEFT]) and is
    refilled from the FIFO when [pull_thresh] bits have left it
    ([autopull=True]); with nothing to refill it from, [out] stalls. *)
Module Pio.

Inductive op : Type :=
| Out (bits : Z)          (** [out(x, bits)] *)
| JmpNotX (target : nat)  (** [jmp(not_x, label)] *)
| Jmp (target : nat)      (** [jmp(label)] *)
| Nop.                    (** [nop()] *)

Record instr : Type := mkInstr {
  operation : op;
  side : Z;
  delay : Z
}.

Record program : Type := mkProgram {
  code : list instr;
  wrap_target : nat;
  wrap : nat;
  pull_thresh : Z
}.

(** [def ws2812()]: the labels [bitloop] and [do_zero] are the addresses 0
    and 3. *)
Definition ws2812 : program :=
  let T1 := 2 in
  let T2 := 5 in
  let T3 := 3 in
  let bitloop := 0%nat in
  let do_zero := 3%nat in
  mkProgram
    [ mkInstr (Out 1) 0 (T3 - 1);
      mkInstr (JmpNotX do_zero) 1 (T1 - 1);
      mkInstr (Jmp bitloop) 1 (T2 - 1);
      mkInstr Nop 0 (T2 - 1) ]
    0 3 24.

(** [def sk6812()] *)
Definition sk6812 : program :=
  let T1 := 2 in
  let T2 := 5 in
  let T3 := 3 in
  let bitloop := 0%nat in
  let do_zero := 3%nat in
  mkProgram
    [ mkInstr (Out 1) 0 (T3 - 1);
      mkInstr (JmpNotX do_zero) 1 (T1 - 1);
      mkInstr (Jmp bitloop) 1 (T2 - 1);
      mkInstr Nop 0 (T2 - 1) ]
    0 3 32.

Record state : Type := mkState {
  pc : nat;
  x : Z;
  osr : Z;
  (** bits shifted out of [osr] since it was filled; 32 when it is empty *)
  count : Z;
  fifo : list Z
}.

(** The state machine when it is started: at the first instruction, with an
    empty output shift register. *)
Definition start (words : list Z) : state := mkState 0 0 0 32 words.

(** The address after [pc] when no jump is taken. *)
Definition advance (p : program) (pc : nat) : nat :=
  if Nat.eqb pc (wrap p) then wrap_target p else S pc.

(** The output shift register ready for an [out]: refilled from the FIFO
    when the threshold is reached; [None] when there is nothing to refill it
    from. *)
Definition refill (p : program) (st : state) : option state :=
  if count st <? pull_thresh p then Some st
  else
    match fifo st with
    | [] => None
    | w :: rest => Some (mkState (pc st) (x st) w 0 rest)
    end.

(** One instruction: the state after it, with the level of the pin and the
    number of cycles the level is held; [None] for a stall. *)
Definition step (p : program) (st : state) : option (state * (Z * Z)) :=
  match code p !! pc st with
  | None => None
  | Some i =>
      let held := (side i, delay i + 1) in
      match operation i with
      | Out n =>
          match refill p st with
          | None => None
          | Some st =>
              Some (mkState (advance p (pc st))
                            (Z.shiftr (osr st) (32 - n))
                            (Z.land (Z.shiftl (osr st) n) 4294967295)
                            (count st + n)
                            (fifo st),
                    held)
          end
      | JmpNotX target =>
          Some (mkState (if x st =? 0 then target else advance p (pc st))
                        (x st) (osr st) (count st) (fifo st),
                held)
      | Jmp target =>
          Some (mkState target (x st) (osr st) (count st) (fifo st), held)
      | Nop =>
          Some (mkState (advance p (pc st)) (x st) (osr st) (count st)
                        (fifo st),
                held)
      end
  end.

(** At most [fuel] instructions, up to the first stall: the levels held, in
    order, and the state reached. *)
Fixpoint run (fuel : nat) (p : program) (st : state)
    : list (Z * Z) * state :=
  match fuel with
  | O => ([], st)
  | S fuel' =>
      match step p st with
      | None => ([], st)
      | Some (st', held) =>
          let r := run fuel' p st' in
          (held :: fst r, snd r)
      end
  end.

(** [sm.put(value, shift)]: the word the FIFO receives. *)
Definition pushed (value shift : Z) : Z :=
  Z.land (Z.shiftl value shift) 4294967295.

End Pio.

(** The program [__init__] passes to [rp2.StateMachine]. *)
Definition program_of (p : pio_program) : Pio.program :=
  match p with
  | ws2812 => Pio.ws2812
  | sk6812 => Pio.sk6812
  end.

(** The words in the FIFO of the state machine after the calls of [put]. *)
Definition fifo_of (m : StateMachine) : list Z :=
  (fun wc => Pio.pushed (fst wc) (snd wc)) <$> sm_tx m.

(** ** [main.py] *)

(** The script drives one global strip.  Its functions are computations on
    the object [strip] names; [time.sleep] only lets time pass and
    [print] writes to the console, neither touches the strip. *)
Module Main.

Definition numpix : Z := 53 * 4.
Definition pin : Z := 28.

(** [strip = Neopixel(numpix, 0, pin, "GRB")] and [strip.brightness(100)];
    0.0001 is the default of [delay]. *)
Definition strip : res t :=
  Py.bind (__init__ numpix 0 pin "GRB" (1 # 10000)) (fun s =>
  let r := brightness (Some 100) s in
  Py.bind (fst r) (fun _ => inr (snd r))).

Definition red : list Z := [255; 0; 0].
Definition orange1 : list Z := [255; 255; 0].
Definition orange2 : list Z := [128; 255; 0].
Definition yellow : list Z := [64; 255; 0].
Definition green1 : list Z := [0; 153; 0].
Definition green2 : list Z := [0; 204; 0].
Definition green3 : list Z := [0; 255; 0].
Definition blue1 : list Z := [0; 255; 64].
Definition blue2 : list Z := [0; 255; 255].
Definition blue3 : list Z := [0; 128; 255].
Definition blue4 : list Z := [0; 64; 255].
Definition blue5 : list Z := [0; 0; 255].
Definition pink1 : list Z := [153; 0; 255].
Definition pink2 : list Z := [255; 0; 255].
Definition pink3 : list Z := [255; 0; 128].
Definition pink4 : list Z := [255; 0; 64].

Definition colors : list (list Z) :=
  [red; orange1; orange2; yellow; green1; green2; blue1; blue2; blue3;
   pink1; pink2; pink3; pink4].

(** [enumerate(l)] *)
Definition enumerate {A : Type} (l : list A) : list (Z * A) :=
  zip (seqZ 0 (Z.of_nat (length l))) l.

Definition rainbow_static : M unit :=
  passes <- lift (floordiv numpix (Z.of_nat (length colors))) ;;
  for_each (range 0 passes) (fun multiplier =>
    for_each (enumerate colors) (fun ic =>
      _ <- set_pixel (fst ic) (snd ic) ;;
      show)).

Definition rainbow_off : M unit :=
  _ <- fill [0; 0; 0] ;; show.

(** [while n <= count: ...; n += 1] of [rainbow_run], from the value [n] on;
    [fuel] bounds the passes, and the result tells whether the loop came to
    its end within them. *)
Fixpoint rainbow_loop (fuel : nat) (count n : Z) : M bool :=
  if n <=? count then
    match fuel with
    | O => ret false
    | S fuel' =>
        _ <- for_each colors (fun color =>
               for_each (range 0 numpix) (fun i =>
                 _ <- set_pixel i color ;;
                 show)) ;;
        rainbow_loop fuel' count (n + 1)
    end
  else ret true.

Definition rainbow_run (fuel : nat) (count : Z) : M bool :=
  finished <- rainbow_loop fuel count 1 ;;
  if finished : bool then
    _ <- fill [0; 0; 0] ;;
    _ <- show ;;
    ret true
  else ret false.

(** [segment(start, end)] *)
Definition segment (start end_ : Z) : M unit :=
  for_each colors (fun color =>
    for_each (range start end_) (fun i =>
      _ <- set_pixel i color ;;
      show)).

End Main.

(** ** What the claims speak of *)

(** [round(c * brightness / 255)], the scaled channel as the specification
    writes it. *)
Definition expected (c b : Z) : Z :=
  round (inject_Z c * inject_Z b / inject_Z 255).

(** The 8-bit lane of the word [w] that starts at bit [p]. *)
Definition lane (w p : Z) : Z := Z.land (Z.shiftr w p) 255.

(** The channel [k] of a colour, [0] where the colour has none. *)
Definition chan (c : list Z) (k : nat) : Z := default 0 (c !! k).

(** A mode string that is a permutation of RGB or of RGBW. *)
Definition valid_mode (m : string) : Prop :=
  list_ascii_of_string m ≡ₚ list_ascii_of_string "RGB" ∨
  list_ascii_of_string m ≡ₚ list_ascii_of_string "RGBW".

(** A colour as the buffer takes it: three or four channels, each in
    [0,255]. *)
Definition pixel_colour (c : list Z) : Prop :=
  (length c = 3 \/ length c = 4)%nat /\ Forall (fun v => 0 <= v <= 255) c.

(** The array of words has the length the buffer records. *)
Definition sized (s : t) : Prop := Z.of_nat (length (pixels s)) = num_leds s.

(** No entry of the shift table is negative. *)
Definition shifts_nonneg (s : t) : Prop :=
  0 <= shift_R (shift s) /\ 0 <= shift_G (shift s) /\
  0 <= shift_B (shift s) /\ 0 <= shift_W (shift s).

(** Buffers used in the examples. *)
Definition grb4 : t :=
  mk [0; 0; 0; 0] (set_of_str "GRB")
     (mkStateMachine 0 ws2812 8000000 22 true [])
     (mkShift 8 16 0 0) 4 (1 # 10000) 255.

Definition rgb4 : t :=
  mk [0; 0; 0; 0] (set_of_str "RGB")
     (mkStateMachine 0 ws2812 8000000 22 true [])
     (mkShift 16 8 0 0) 4 (1 # 10000) 255.

Definition rgbw4 : t :=
  mk [0; 0; 0; 0] (set_of_str "RGBW")
     (mkStateMachine 0 sk6812 8000000 22 true [])
     (mkShift 24 16 8 0) 4 (1 # 10000) 255.

(** [round(c * (b / 255))], the scaling [set_pixel] applies to a channel. *)
Definition scale (b c : Z) : Z :=
  round (inject_Z c * (inject_Z b / inject_Z 255)).

(** The same scaling in IEEE 754 arithmetic of precision [prec] and exponent
    bound [emax] (53 and 1024 for binary64, 24 and 128 for binary32): the
    integers are converted, divided and multiplied with rounding to nearest
    even, and [round] is applied to the value of the result. *)
Module Ieee.

Definition of_int (prec emax : Z) (z : Z) : spec_float :=
  binary_normalize prec emax z 0 false.

(** The rational a finite float stands for. *)
Definition value (f : spec_float) : option Q :=
  match f with
  | S754_zero _ => Some 0%Q
  | S754_finite s m e =>
      let n := if s then Z.neg m else Z.pos m in
      Some (match e with
            | Zneg p => Qmake n (Pos.pow 2 p)
            | _ => inject_Z (n * 2 ^ e)
            end)
  | S754_infinity _ | S754_nan => None
  end.

(** [b / 255] *)
Definition ratio (prec emax : Z) (b : Z) : spec_float :=
  SFdiv prec emax (of_int prec emax b) (of_int prec emax 255).

(** [round(c * q)] *)
Definition scale_by (prec emax : Z) (q : spec_float) (c : Z) : option Z :=
  option_map round (value (SFmul prec emax (of_int prec emax c) q)).

Definition scale (prec emax : Z) (b c : Z) : option Z :=
  scale_by prec emax (ratio prec emax b) c.

End Ieee.

(** The check that [Ieee.scale] is the exact scaling for every brightness in
    [1,255] and every channel in [0,255]. *)
Definition ieee_agrees (prec emax : Z) : bool :=
  forallb (fun b =>
    let q := Ieee.ratio prec emax b in
    forallb (fun c =>
      match Ieee.scale_by prec emax q c with
      | Some v => v =? scale b c
      | None => false
      end) (seqZ 0 256)) (seqZ 1 255).

(** The value [set_pixel] computes for the slot, before it is stored. *)
Definition word (s : t) (c : list Z) : Z :=
  let b := brightnessvalue s in
  let pos := shift s in
  let white :=
    if bool_decide (length c = 4%nat) && bool_decide ("W"%char ∈ mode s)
    then scale b (chan c 3) else 0 in
  Z.lor (Z.lor (Z.lor (Z.shiftl white (shift_W pos))
                      (Z.shiftl (scale b (chan c 2)) (shift_B pos)))
               (Z.shiftl (scale b (chan c 0)) (shift_R pos)))
        (Z.shiftl (scale b (chan c 1)) (shift_G pos)).

(** The shift table of a valid mode: the lanes of R, G and B (and of W, when
    the mode has it) are distinct multiples of 8; without W the entry of W
    is 0 and the three lanes lie below bit 24. *)
Definition lane_table (has_w : bool) (sh : Shift) : Prop :=
  exists r g b w,
    sh = mkShift (8 * r) (8 * g) (8 * b) (8 * w) /\
    r <> g /\ r <> b /\ g <> b /\
    if has_w
    then 0 <= r <= 3 /\ 0 <= g <= 3 /\ 0 <= b <= 3 /\ 0 <= w <= 3 /\
         w <> r /\ w <> g /\ w <> b
    else 0 <= r <= 2 /\ 0 <= g <= 2 /\ 0 <= b <= 2 /\ w = 0.

(** [l[k:] + l[:k]], the array both rotations build. *)
Definition rot (l : list Z) (k : Z) : list Z := slice_from l k ++ slice_to l k.

(** A buffer of four words that differ, for the examples. *)
Definition grb4_1234 : t := with_pixels [1; 2; 3; 4] grb4.

(** An empty buffer, and a buffer of a mode with repeated letters. *)
Definition rgb0 : t :=
  mk [] (set_of_str "RGB") (mkStateMachine 0 ws2812 8000000 22 true [])
     (mkShift 16 8 0 0) 0 (1 # 10000) 255.

Definition rgbrgb4 : t :=
  mk [0; 0; 0; 0] (set_of_str "RGBRGB")
     (mkStateMachine 0 ws2812 8000000 22 true [])
     (mkShift 16 8 0 0) 4 (1 # 10000) 255.

(** The strip and the colours of the example at the end of [neopixel.py]. *)
Definition grb16 : t :=
  mk (replicate 16 0) (set_of_str "GRB")
     (mkStateMachine 0 ws2812 8000000 22 true [])
     (mkShift 8 16 0 0) 16 (1 # 10000) 255.

Definition r1 : list Z := [255; 0; 0].
Definition y1 : list Z := [255; 173; 0].
Definition y2 : list Z := [255; 255; 0].
Definition g1 : list Z := [0; 255; 0].
Definition b5 : list Z := [0; 0; 255].

(** A buffer as [__init__] makes it from a valid mode and a length that is
    not negative, and as every method keeps it. *)
Definition well_formed (s : t) : Prop :=
  sized s /\
  lane_table (bool_decide ("W"%char ∈ mode s)) (shift s) /\
  1 <= brightnessvalue s <= 255.

(** The computation [m] keeps the mode, the shift table, the recorded length
    and the length of the array, and keeps the brightness in [1,255]. *)
Definition frame {A : Type} (m : M A) : Prop :=
  forall s,
    mode (snd (m s)) = mode s /\
    shift (snd (m s)) = shift s /\
    num_leds (snd (m s)) = num_leds s /\
    length (pixels (snd (m s))) = length (pixels s) /\
    (1 <= brightnessvalue s <= 255 -> 1 <= brightnessvalue (snd (m s)) <= 255).

(** [round((y - x) * f + x)], the channel between [x] and [y] at the
    fraction [f]. *)
Definition lerp_value (x y : Z) (f : Q) : Z :=
  round (inject_Z (y - x) * f + inject_Z x).

(** The colour the gradients write at the fraction [f] between the colours
    [a] and [b]; [hw] tells whether the white channel is written. *)
Definition mix (hw : bool) (a b : list Z) (f : Q) : list Z :=
  let v k := lerp_value (chan a k) (chan b k) f in
  if hw then [v 0%nat; v 1%nat; v 2%nat; v 3%nat]
  else [v 0%nat; v 1%nat; v 2%nat].

(** Whether the gradients write a white channel for the first colour [a]. *)
Definition writes_white (s : t) (a : list Z) : bool :=
  bool_decide (length a = 4%nat) && bool_decide ("W"%char ∈ mode s).

(** The bits the state machine shifts out of a FIFO word: the [thresh] highest
    of its 32 bits, the highest first. *)
Definition wire_bits (thresh : Z) (w : Z) : list bool :=
  (fun i => Z.testbit w (31 - i)) <$> seqZ 0 thresh.

(** The eight bits of a byte, the highest first. *)
Definition byte_bits (v : Z) : list bool :=
  (fun i => Z.testbit v (7 - i)) <$> seqZ 0 8.

(** The levels of the pin for one bit: low for 3 cycles, high for 2, then
    high for 5 more for a one and low for 5 for a zero. *)
Definition bit_wave (b : bool) : list (Z * Z) :=
  [(0, 3); (1, 2); (if b then 1 else 0, 5)].

(** The cycles a list of held levels lasts, and those at the high level. *)
Definition cycles (tr : list (Z * Z)) : Z :=
  foldr (fun h acc => snd h + acc) 0 tr.

Definition high_cycles (tr : list (Z * Z)) : Z :=
  foldr (fun h acc => (if fst h =? 1 then snd h else 0) + acc) 0 tr.

(** The number of ones among the bits. *)
Definition ones (bits : list bool) : Z :=
  foldr (fun (b : bool) acc => (if b then 1 else 0) + acc) 0 bits.

(** The channel of a colour a letter of the mode stands for. *)
Definition channel_of (letter : ascii) : nat :=
  if Ascii.eqb letter "R" then 0
  else if Ascii.eqb letter "G" then 1
  else if Ascii.eqb letter "B" then 2
  else 3.

(** The bytes of a pixel of the colour [c] at the brightness [b] for the mode
    string [m]: one scaled channel for each letter, in the order of the
    letters. *)
Definition wire_bytes (m : string) (b : Z) (c : list Z) : list Z :=
  (fun letter => expected (chan c (channel_of letter)) b) <$>
    list_ascii_of_string m.

(** The state machine runs the program that goes with the mode. *)
Definition coherent (s : t) : Prop :=
  sm_program (sm s) =
    if bool_decide ("W"%char ∈ mode s) then sk6812 else ws2812.

(** The code both programs share, with the threshold [th]. *)
Definition bit_loop (th : Z) : Pio.program :=
  Pio.mkProgram
    [ Pio.mkInstr (Pio.Out 1) 0 2;
      Pio.mkInstr (Pio.JmpNotX 3) 1 1;
      Pio.mkInstr (Pio.Jmp 0) 1 4;
      Pio.mkInstr Pio.Nop 0 4 ]
    0 3 th.

(** The object after [show], on a buffer whose array has [num_leds] words:
    the words of the array are handed to the state machine after those
    handed over before. *)
Definition shown (s : t) : t :=
  let cut := if bool_decide ("W"%char ∈ mode s) then 0 else 8 in
  with_sm (mkStateMachine (sm_id (sm s)) (sm_program (sm s)) (sm_freq (sm s))
             (sm_pin (sm s)) (sm_active (sm s))
             (sm_tx (sm s) ++ ((fun w => (w, cut)) <$> pixels s)))
          s.

(** [s'] has the mode, the shift table, the brightness and the length of
    [s]. *)
Definition same_setup (s s' : t) : Prop :=
  mode s' = mode s /\ shift s' = shift s /\ num_leds s' = num_leds s /\
  brightnessvalue s' = brightnessvalue s /\
  length (pixels s') = length (pixels s).

(** The number of frames handed to the state machine between [s] and [s'],
    when a whole number of them was. *)
Definition frames_between (s s' : t) (k : Z) : Prop :=
  Z.of_nat (length (sm_tx (sm s'))) =
    Z.of_nat (length (sm_tx (sm s))) + k * Z.of_nat (length (pixels s)).

(** The strip of [main.py] after the first two statements of the script. *)
Definition main_strip : t :=
  mk (replicate 212 0) (set_of_str "GRB")
     (mkStateMachine 0 ws2812 8000000 28 true [])
     (mkShift 8 16 0 0) 212 (1 # 10000) 100.

(** ** Rounding *)

Section Rounding.

Lemma round_comp (x y : Q) : (x == y)%Q -> round x = round y.
Proof.
  intros E. unfold round.
  rewrite (Qfloor_comp _ _ E).
  assert (E' : (x - inject_Z (Qfloor y) == y - inject_Z (Qfloor y))%Q)
    by (rewrite E; reflexivity).
  rewrite (Qcompare_comp _ _ E' _ _ (Qeq_refl _)).
  reflexivity.
Qed.

Lemma round_floor_bounds (x : Q) : Qfloor x <= round x <= Qfloor x + 1.
Proof.
  unfold round.
  destruct (Qcompare _ _); [destruct (Z.even _) | |]; lia.
Qed.

Lemma round_ge (x : Q) (z : Z) : (inject_Z z <= x)%Q -> z <= round x.
Proof.
  intros H. apply Qfloor_resp_le in H. rewrite Qfloor_Z in H.
  pose proof (round_floor_bounds x). lia.
Qed.

Lemma round_le (x : Q) (z : Z) : (x <= inject_Z z)%Q -> round x <= z.
Proof.
  intros H. pose proof (Qfloor_resp_le _ _ H) as Hf. rewrite Qfloor_Z in Hf.
  destruct (Z.eq_dec (Qfloor x) z) as [E | NE].
  - unfold round.
    assert (L : (x - inject_Z (Qfloor x) < 1 # 2)%Q).
    { rewrite E. apply Qle_lt_trans with (y := 0%Q); [| reflexivity].
      apply Qle_minus_iff.
      setoid_replace (0 + - (x - inject_Z z))%Q
        with (inject_Z z + - x)%Q using relation Qeq by ring.
      apply (proj1 (Qle_minus_iff _ _)). exact H. }
    rewrite (proj1 (Qlt_alt _ _) L). lia.
  - pose proof (round_floor_bounds x). lia.
Qed.

(** The source scales by [c * (b / 255)]; the specification writes
    [c * b / 255]. *)
Lemma scale_expected (c b : Z) :
  round (inject_Z c * (inject_Z b / inject_Z 255)) = expected c b.
Proof. apply round_comp. unfold Qdiv. ring. Qed.

Lemma expected_byte (c b : Z) :
  0 <= c <= 255 -> 1 <= b <= 255 -> 0 <= expected c b <= 255.
Proof.
  intros Hc Hb. unfold expected. split.
  - apply round_ge. unfold Qle, Qdiv, Qmult, Qinv, inject_Z. simpl. nia.
  - apply round_le. unfold Qle, Qdiv, Qmult, Qinv, inject_Z. simpl. nia.
Qed.

End Rounding.

(** ** Floating point *)

(** For every brightness in [1,255] and channel in [0,255], the scaling
    computed in binary64 and in binary32 is the exact one: on these inputs
    the rounded products and quotients stay on the side of the half-integers
    where the rationals are. *)
Lemma ieee_scale_exact (b c : Z) :
  1 <= b <= 255 -> 0 <= c <= 255 ->
  Ieee.scale 53 1024 b c = Some (scale b c) /\
  Ieee.scale 24 128 b c = Some (scale b c).
Proof.
  intros Hb Hc.
  assert (A : forall prec emax, ieee_agrees prec emax = true ->
                Ieee.scale prec emax b c = Some (scale b c)).
  { intros prec emax H. unfold ieee_agrees in H.
    rewrite forallb_forall in H.
    specialize (H b ltac:(apply list_elem_of_In, elem_of_seqZ; lia)).
    cbv zeta in H. rewrite forallb_forall in H.
    specialize (H c ltac:(apply list_elem_of_In, elem_of_seqZ; lia)).
    fold (Ieee.scale prec emax b c) in H.
    destruct (Ieee.scale prec emax b c) as [v |]; [| discriminate H].
    apply Z.eqb_eq in H. congruence. }
  split; apply A; vm_compute; reflexivity.
Qed.

(** ** Lanes of a packed word *)

Section Lanes.

Lemma lane_lor (a b p : Z) : lane (Z.lor a b) p = Z.lor (lane a p) (lane b p).
Proof. unfold lane. rewrite Z.shiftr_lor. apply Z.land_lor_distr_l. Qed.

Lemma lane_0 (p : Z) : lane 0 p = 0.
Proof. unfold lane. rewrite Z.shiftr_0_l. reflexivity. Qed.

Lemma lane_shiftl_same (v p : Z) :
  0 <= v <= 255 -> 0 <= p -> lane (Z.shiftl v p) p = v.
Proof.
  intros Hv Hp. unfold lane.
  rewrite Z.shiftr_shiftl_l, Z.sub_diag, Z.shiftl_0_r by lia.
  change 255 with (Z.ones 8). rewrite Z.land_ones by lia.
  apply Z.mod_small. change (2 ^ 8) with 256. lia.
Qed.

Lemma lane_shiftl_above (v p q : Z) :
  0 <= v <= 255 -> 0 <= p -> p + 8 <= q -> lane (Z.shiftl v q) p = 0.
Proof.
  intros Hv Hp Hq. unfold lane.
  rewrite Z.shiftr_shiftl_l by lia.
  change 255 with (Z.ones 8). rewrite Z.land_ones by lia.
  rewrite Z.shiftl_mul_pow2 by lia.
  replace (q - p) with (8 + (q - p - 8)) by lia.
  rewrite Z.pow_add_r by lia.
  rewrite Z.mul_assoc, (Z.mul_comm v), <- Z.mul_assoc.
  rewrite Z.mul_comm. apply Z.mod_mul. discriminate.
Qed.

Lemma lane_shiftl_below (v p q : Z) :
  0 <= v <= 255 -> 0 <= q -> q + 8 <= p -> lane (Z.shiftl v q) p = 0.
Proof.
  intros Hv Hq Hp. unfold lane.
  rewrite Z.shiftr_shiftl_r by lia.
  rewrite Z.shiftr_div_pow2 by lia.
  rewrite Z.div_small; [reflexivity |].
  split; [lia |].
  apply Z.lt_le_trans with (m := 2 ^ 8); [change (2 ^ 8) with 256; lia |].
  apply Z.pow_le_mono_r; lia.
Qed.

Lemma lane_shiftl_other (v p q : Z) :
  0 <= v <= 255 -> 0 <= p -> 0 <= q -> p + 8 <= q \/ q + 8 <= p ->
  lane (Z.shiftl v q) p = 0.
Proof.
  intros Hv Hp Hq [H | H];
    [apply lane_shiftl_above | apply lane_shiftl_below]; assumption.
Qed.

(** A word made of bytes below bit 32 is stored as it is. *)
Lemma to_uint32_small (w : Z) : 0 <= w < 2 ^ 32 -> to_uint32 w = w.
Proof.
  intros H. unfold to_uint32. change 4294967295 with (Z.ones 32).
  rewrite Z.land_ones by lia. apply Z.mod_small. exact H.
Qed.

Lemma shiftl_byte_bound (v p : Z) :
  0 <= v <= 255 -> 0 <= p <= 24 -> 0 <= Z.shiftl v p < 2 ^ 32.
Proof.
  intros Hv Hp. rewrite Z.shiftl_mul_pow2 by lia.
  assert (0 < 2 ^ p) by (apply Z.pow_pos_nonneg; lia).
  assert (2 ^ p <= 2 ^ 24) by (apply Z.pow_le_mono_r; lia).
  change (2 ^ 24) with 16777216 in *. change (2 ^ 32) with 4294967296.
  nia.
Qed.

Lemma lor_bound (a b n : Z) :
  0 <= n -> 0 <= a < 2 ^ n -> 0 <= b < 2 ^ n -> 0 <= Z.lor a b < 2 ^ n.
Proof.
  intros Hn Ha Hb.
  destruct (Z.eq_dec a 0) as [-> | Na]; [rewrite Z.lor_0_l; exact Hb |].
  destruct (Z.eq_dec b 0) as [-> | Nb]; [rewrite Z.lor_0_r; exact Ha |].
  assert (N : 0 <= Z.lor a b) by (apply Z.lor_nonneg; lia).
  split; [exact N |].
  assert (P : 0 < Z.lor a b).
  { destruct (Z.eq_dec (Z.lor a b) 0) as [E | NE]; [| lia].
    apply Z.lor_eq_0_iff in E. lia. }
  apply Z.log2_lt_pow2; [exact P |].
  rewrite Z.log2_lor by lia.
  apply Z.max_lub_lt; apply Z.log2_lt_pow2; lia.
Qed.

End Lanes.

(** ** [set_pixel] in closed form *)

Section SetPixel.

Lemma with_pixels_id (s : t) : with_pixels (pixels s) s = s.
Proof. destruct s; reflexivity. Qed.

Lemma lshift_nonneg (a n : Z) : 0 <= n -> lshift a n = inr (Z.shiftl a n).
Proof.
  intros H. unfold lshift. destruct (Z.ltb_spec n 0); [lia | reflexivity].
Qed.

Lemma scaled_run (c : Z) (s : t) :
  scaled c s = (inr (scale (brightnessvalue s) c), s).
Proof. reflexivity. Qed.

(** With a colour of at least three channels and a shift table without
    negative entries, [set_pixel] computes [word] and stores it. *)
Lemma set_pixel_word (idx : Z) (c : list Z) (s : t) :
  shifts_nonneg s -> (3 <= length c)%nat ->
  set_pixel idx c s =
    match subscript (length (pixels s)) idx with
    | inr i => (inr tt, with_pixels (<[i := to_uint32 (word s c)]> (pixels s)) s)
    | inl e => (inl e, s)
    end.
Proof.
  intros (HR & HG & HB & HW) Hc.
  destruct c as [| c0 [| c1 [| c2 rest]]]; simpl in Hc; try lia.
  unfold set_pixel, word, store, has_white, chan, bind, gets, lift, ret, modify.
  cbn [getitem lookup list_lookup default fst snd].
  rewrite !scaled_run.
  destruct (bool_decide (length (c0 :: c1 :: c2 :: rest) = 4%nat)
            && bool_decide ("W"%char ∈ mode s)) eqn:W.
  - destruct rest as [| c3 rest]; [discriminate W |].
    cbn [getitem lookup list_lookup default].
    rewrite scaled_run, !lshift_nonneg by assumption.
    destruct (subscript (length (pixels s)) idx); reflexivity.
  - rewrite !lshift_nonneg by assumption.
    destruct (subscript (length (pixels s)) idx); reflexivity.
Qed.

(** A colour of fewer than three channels: the tuple subscript raises. *)
Lemma set_pixel_short (idx : Z) (c : list Z) (s : t) :
  (length c < 3)%nat -> set_pixel idx c s = (inl IndexError, s).
Proof.
  intros Hc.
  destruct c as [| c0 [| c1 [| c2 rest]]]; simpl in Hc; try lia;
    reflexivity.
Qed.

Lemma subscript_in (len : nat) (i : Z) :
  0 <= i < Z.of_nat len -> subscript len i = inr (Z.to_nat i).
Proof.
  intros H. unfold subscript.
  destruct (Z.ltb_spec i 0); [lia |].
  destruct (Z.ltb_spec i 0); [lia |].
  destruct (Z.leb_spec (Z.of_nat len) i); [lia | reflexivity].
Qed.

Lemma subscript_neg (len : nat) (i : Z) :
  - Z.of_nat len <= i < 0 -> subscript len i = inr (Z.to_nat (i + Z.of_nat len)).
Proof.
  intros H. unfold subscript.
  destruct (Z.ltb_spec i 0); [| lia].
  destruct (Z.ltb_spec (i + Z.of_nat len) 0); [lia |].
  destruct (Z.leb_spec (Z.of_nat len) (i + Z.of_nat len)); [lia | reflexivity].
Qed.

Lemma subscript_out (len : nat) (i : Z) :
  i < - Z.of_nat len \/ Z.of_nat len <= i -> subscript len i = inl IndexError.
Proof.
  intros H. unfold subscript.
  destruct (Z.ltb_spec i 0).
  - destruct (Z.ltb_spec (i + Z.of_nat len) 0); [reflexivity |].
    destruct (Z.leb_spec (Z.of_nat len) (i + Z.of_nat len)); [reflexivity | lia].
  - destruct (Z.ltb_spec i 0); [lia |].
    destruct (Z.leb_spec (Z.of_nat len) i); [reflexivity | lia].
Qed.

End SetPixel.

(** ** Construction with a valid mode *)

Lemma valid_mode_cases (m : string) :
  valid_mode m ->
  m ∈ (string_of_list_ascii <$> permutations (list_ascii_of_string "RGB")) ++
      (string_of_list_ascii <$> permutations (list_ascii_of_string "RGBW")).
Proof.
  intros H. rewrite <- (string_of_list_ascii_of_string m).
  apply elem_of_app.
  destruct H as [H | H]; [left | right];
    apply list_elem_of_fmap_2; apply permutations_Permutation; symmetry; exact H.
Qed.

Lemma init_valid (n sid pin : Z) (m : string) (d : Q) :
  valid_mode m ->
  exists sh pg,
    __init__ n sid pin m d =
      inr (mk (replicate (Z.to_nat n) 0) (set_of_str m)
              (mkStateMachine sid pg 8000000 pin true []) sh n d 255) /\
    lane_table (bool_decide ("W"%char ∈ set_of_str m)) sh.
Proof.
  intros H. apply valid_mode_cases in H.
  vm_compute permutations in H. cbn in H.
  repeat (apply elem_of_cons in H as [H | H]; [subst m | ]).
  all: try (apply elem_of_nil in H; contradiction).
  all: unfold __init__.
  all: match goal with |- context [bool_decide (?a ∈ set_of_str ?m)] =>
         let v := eval vm_compute in (bool_decide (a ∈ set_of_str m)) in
         replace (bool_decide (a ∈ set_of_str m)) with v by (vm_compute; reflexivity) end.
  all: cbn [str_index Py.bind Ascii.eqb Bool.eqb].
  all: eexists _, _; split; [reflexivity |].
  all: match goal with
       | |- lane_table _ (mkShift ?a ?b ?c ?d) =>
           exists (a / 8), (b / 8), (c / 8), (d / 8)
       end.
  all: vm_compute; repeat split; intros; discriminate.
Qed.

(** The first letter of a valid mode has the highest lane, the last letter
    the lane at bit 0: the letter at position [i] of a mode of [len] letters
    is shifted by [8 * (len - 1 - i)], and W by 0 when the mode has no W. *)
Lemma init_lane_order (n sid pin : Z) (m : string) (d : Q) (s : t) :
  valid_mode m ->
  __init__ n sid pin m d = inr s ->
  let lane_of c :=
    match str_index c m with
    | inr i => 8 * (Z.of_nat (String.length m) - 1 - i)
    | inl _ => 0
    end in
  shift_R (shift s) = lane_of "R"%char /\
  shift_G (shift s) = lane_of "G"%char /\
  shift_B (shift s) = lane_of "B"%char /\
  shift_W (shift s) = lane_of "W"%char.
Proof.
  intros H Hi. apply valid_mode_cases in H.
  vm_compute permutations in H. cbn in H.
  repeat (apply elem_of_cons in H as [H | H]; [subst m | ]).
  all: try (apply elem_of_nil in H; contradiction).
  all: vm_compute in Hi; injection Hi as <-.
  all: vm_compute; repeat split.
Qed.

(** ** The lanes of the word [set_pixel] writes *)

Section WordLanes.

Lemma chan_byte (c : list Z) (k : nat) :
  Forall (fun v => 0 <= v <= 255) c -> 0 <= chan c k <= 255.
Proof.
  intros H. unfold chan. destruct (c !! k) as [v |] eqn:E; simpl; [| lia].
  exact (Forall_lookup_1 _ _ _ _ H E).
Qed.

Lemma scale_eq (b c : Z) : scale b c = expected c b.
Proof. apply scale_expected. Qed.

Ltac lanes :=
  rewrite !lane_lor;
  repeat first [ rewrite lane_shiftl_same by lia
               | rewrite lane_shiftl_other by lia
               | rewrite lane_0 ];
  rewrite ?Z.lor_0_l, ?Z.lor_0_r.

Lemma word_lanes (s : t) (c : list Z) :
  lane_table (bool_decide ("W"%char ∈ mode s)) (shift s) ->
  1 <= brightnessvalue s <= 255 ->
  Forall (fun v => 0 <= v <= 255) c ->
  let b := brightnessvalue s in
  let w := word s c in
  0 <= w < 2 ^ 32 /\
  lane w (shift_R (shift s)) = expected (chan c 0) b /\
  lane w (shift_G (shift s)) = expected (chan c 1) b /\
  lane w (shift_B (shift s)) = expected (chan c 2) b /\
  if bool_decide ("W"%char ∈ mode s)
  then lane w (shift_W (shift s)) =
         if bool_decide (length c = 4%nat) then expected (chan c 3) b else 0
  else lane w 24 = 0.
Proof.
  intros (r & g & bl & wl & Esh & Hrg & Hrb & Hgb & Ht) Hb Hc b w.
  subst b w. unfold word. rewrite Esh. cbn [shift_R shift_G shift_B shift_W].
  rewrite !scale_eq.
  pose proof (expected_byte _ _ (chan_byte c 0 Hc) Hb) as B0.
  pose proof (expected_byte _ _ (chan_byte c 1 Hc) Hb) as B1.
  pose proof (expected_byte _ _ (chan_byte c 2 Hc) Hb) as B2.
  pose proof (expected_byte _ _ (chan_byte c 3 Hc) Hb) as B3.
  set (v0 := expected (chan c 0) (brightnessvalue s)) in *.
  set (v1 := expected (chan c 1) (brightnessvalue s)) in *.
  set (v2 := expected (chan c 2) (brightnessvalue s)) in *.
  destruct (bool_decide ("W"%char ∈ mode s)).
  - destruct Ht as (Rr & Rg & Rb & Rw & Hwr & Hwg & Hwb).
    rewrite andb_true_r.
    assert (B : 0 <= (if bool_decide (length c = 4%nat)
                      then expected (chan c 3) (brightnessvalue s) else 0)
                  <= 255)
      by (destruct (bool_decide _); lia).
    set (v3 := if bool_decide (length c = 4%nat)
               then expected (chan c 3) (brightnessvalue s) else 0) in *.
    split; [| repeat split; lanes; reflexivity].
    repeat apply lor_bound; try lia; apply shiftl_byte_bound; lia.
  - destruct Ht as (Rr & Rg & Rb & ->).
    rewrite andb_false_r. change (8 * 0) with 0. rewrite Z.shiftl_0_l.
    rewrite Z.lor_0_l.
    split; [| repeat split; lanes; reflexivity].
    repeat apply lor_bound; try lia; apply shiftl_byte_bound; lia.
Qed.

(** Without a W channel in the mode, a fourth channel of the colour does
    not reach the word. *)
Lemma word_ignores_fourth (s : t) (c : list Z) :
  "W"%char ∉ mode s -> word s (take 3 c) = word s c.
Proof.
  intros H. unfold word.
  rewrite !(bool_decide_eq_false_2 _ H), !andb_false_r.
  assert (E : forall k, (k < 3)%nat -> chan (take 3 c) k = chan c k)
    by (intros k Hk; unfold chan; rewrite lookup_take_lt by lia; reflexivity).
  rewrite !E by lia. reflexivity.
Qed.

End WordLanes.

(** ** [set_pixel] on a well-formed buffer *)

Section WellFormed.

Lemma well_formed_shifts (s : t) : well_formed s -> shifts_nonneg s.
Proof.
  intros (_ & (r & g & b & w & E & _ & _ & _ & H) & _).
  unfold shifts_nonneg. rewrite E. cbn.
  destruct (bool_decide _); lia.
Qed.

Lemma well_formed_with_pixels (p : list Z) (s : t) :
  length p = length (pixels s) -> well_formed s -> well_formed (with_pixels p s).
Proof.
  intros L (Hs & Ht & Hb). unfold well_formed, sized in *. cbn.
  rewrite L. auto.
Qed.

Lemma word_range (s : t) (c : list Z) :
  well_formed s -> pixel_colour c -> 0 <= word s c < 2 ^ 32.
Proof.
  intros (_ & Ht & Hb) [_ Hc]. apply (word_lanes s c Ht Hb Hc).
Qed.

(** On a well-formed buffer, with a colour as the buffer takes it,
    [set_pixel] stores [word] at the subscript, and raises when the subscript
    does. *)
Lemma set_pixel_ok (idx : Z) (c : list Z) (s : t) :
  well_formed s -> pixel_colour c ->
  set_pixel idx c s =
    match subscript (length (pixels s)) idx with
    | inr i => (inr tt, with_pixels (<[i := word s c]> (pixels s)) s)
    | inl e => (inl e, s)
    end.
Proof.
  intros Hs Hc.
  rewrite (set_pixel_word idx c s (well_formed_shifts s Hs))
    by (destruct Hc as [[L | L] _]; lia).
  rewrite (to_uint32_small _ (word_range s c Hs Hc)). reflexivity.
Qed.

End WellFormed.

(** ** Brightness *)

Section Brightness.

Lemma brightness_set (v : Z) (s : t) :
  brightness (Some v) s =
    (inr None, with_brightnessvalue (Z.min 255 (Z.max 1 v)) s).
Proof.
  unfold brightness, bind, modify, ret.
  destruct (Z.ltb_spec v 1).
  - rewrite Z.max_l, Z.min_r by lia. reflexivity.
  - rewrite Z.max_r by lia.
    destruct (Z.ltb_spec 255 v).
    + rewrite Z.min_l by lia. reflexivity.
    + rewrite Z.min_r by lia. reflexivity.
Qed.

Lemma brightness_get (s : t) :
  brightness None s = (inr (Some (brightnessvalue s)), s).
Proof. reflexivity. Qed.

Lemma with_brightnessvalue_id (s : t) :
  with_brightnessvalue (brightnessvalue s) s = s.
Proof. destruct s; reflexivity. Qed.

(** [show] reads the words, the mode and the length only. *)
Lemma show_loop_brightness (cut b : Z) (xs : list Z) (s : t) :
  let body := fun i : Z =>
    p <- gets pixels ;;
    k <- lift (subscript (length p) i) ;;
    w <- lift (getitem p k) ;;
    modify (fun s => with_sm (put w cut (sm s)) s) in
  for_each xs body (with_brightnessvalue b s) =
    (fst (for_each xs body s), with_brightnessvalue b (snd (for_each xs body s))).
Proof.
  intros body. revert s.
  induction xs as [| x xs IH]; intros s; [reflexivity |].
  assert (E : body x (with_brightnessvalue b s) =
              (fst (body x s), with_brightnessvalue b (snd (body x s)))).
  { unfold body, bind, gets, lift, modify. cbn [pixels with_brightnessvalue].
    destruct (subscript (length (pixels s)) x) as [e | k]; [reflexivity |].
    destruct (getitem (pixels s) k); reflexivity. }
  change (for_each (x :: xs) body)
    with (bind (body x) (fun _ => for_each xs body)).
  unfold bind. rewrite E.
  destruct (body x s) as [[e | []] s1]; cbn [fst snd]; [reflexivity |].
  rewrite IH. reflexivity.
Qed.

Lemma show_brightness (b : Z) (s : t) :
  show (with_brightnessvalue b s) =
    (fst (show s), with_brightnessvalue b (snd (show s))).
Proof.
  unfold show, bind, gets.
  cbn [mode num_leds with_brightnessvalue].
  apply show_loop_brightness.
Qed.

End Brightness.

(** ** Rotation *)

Section Rotation.

Lemma rotate_left_rot (k : Z) (s : t) :
  rotate_left (Some k) s = (inr tt, with_pixels (rot (pixels s) k) s).
Proof. reflexivity. Qed.

Lemma rotate_right_rot (k : Z) (s : t) :
  rotate_right (Some k) s = (inr tt, with_pixels (rot (pixels s) (- k)) s).
Proof.
  unfold rotate_right, bind, gets, modify.
  replace (-1 * k) with (- k) by lia. reflexivity.
Qed.

Lemma slice_bound_in (len : nat) (k : Z) :
  0 <= k <= Z.of_nat len -> slice_bound len k = Z.to_nat k.
Proof.
  intros H. unfold slice_bound.
  destruct (Z.ltb_spec k 0); [lia |].
  destruct (Z.ltb_spec k 0); [lia |].
  destruct (Z.ltb_spec (Z.of_nat len) k); [lia | reflexivity].
Qed.

Lemma slice_bound_neg (len : nat) (k : Z) :
  - Z.of_nat len <= k < 0 -> slice_bound len k = Z.to_nat (k + Z.of_nat len).
Proof.
  intros H. unfold slice_bound.
  destruct (Z.ltb_spec k 0); [| lia].
  destruct (Z.ltb_spec (k + Z.of_nat len) 0); [lia |].
  destruct (Z.ltb_spec (Z.of_nat len) (k + Z.of_nat len)); [lia | reflexivity].
Qed.

Lemma slice_bound_over (len : nat) (k : Z) :
  Z.of_nat len < k -> slice_bound len k = len.
Proof.
  intros H. unfold slice_bound.
  destruct (Z.ltb_spec k 0); [lia |].
  destruct (Z.ltb_spec k 0); [lia |].
  destruct (Z.ltb_spec (Z.of_nat len) k); [reflexivity | lia].
Qed.

Lemma slice_bound_under (len : nat) (k : Z) :
  k < - Z.of_nat len -> slice_bound len k = 0%nat.
Proof.
  intros H. unfold slice_bound.
  destruct (Z.ltb_spec k 0); [| lia].
  destruct (Z.ltb_spec (k + Z.of_nat len) 0); [reflexivity | lia].
Qed.

(** An offset beyond the length, on either side, rearranges nothing. *)
Lemma rot_out (l : list Z) (k : Z) :
  k < - Z.of_nat (length l) \/ Z.of_nat (length l) < k -> rot l k = l.
Proof.
  intros [H | H]; unfold rot, slice_from, slice_to.
  - rewrite slice_bound_under by exact H.
    rewrite drop_0, take_0. apply app_nil_r.
  - rewrite slice_bound_over by exact H.
    rewrite drop_all, firstn_all. reflexivity.
Qed.

Lemma rot_0 (l : list Z) : rot l 0 = l.
Proof.
  unfold rot, slice_from, slice_to. rewrite slice_bound_in by lia.
  cbn. apply app_nil_r.
Qed.

(** An offset within the length, on either side, is a rotation to the left
    by the offset modulo the length. *)
Lemma rot_mod (l : list Z) (k : Z) :
  let n := Z.of_nat (length l) in
  0 < n -> - n <= k <= n ->
  rot l k = drop (Z.to_nat (k mod n)) l ++ take (Z.to_nat (k mod n)) l.
Proof.
  intros n Hn Hk. unfold rot, slice_from, slice_to.
  destruct (Z.eq_dec k n) as [E | NE].
  - rewrite slice_bound_in by lia. rewrite E, Z.mod_same by lia.
    subst n. rewrite Nat2Z.id, drop_all, firstn_all.
    change (Z.to_nat 0) with 0%nat.
    rewrite drop_0, take_0, app_nil_r. reflexivity.
  - destruct (Z.lt_ge_cases k 0) as [L | G].
    + rewrite slice_bound_neg by lia.
      replace (k mod n) with (k + n); [reflexivity |].
      destruct (Z.eq_dec k (- n)) as [-> | ?].
      * replace (- n + n) with 0 by lia.
        replace (- n) with (-1 * n) by lia.
        rewrite Z.mod_mul by lia. reflexivity.
      * symmetry. rewrite <- (Z.mod_add k 1 n) by lia.
        rewrite Z.mul_1_l. apply Z.mod_small. lia.
    + rewrite slice_bound_in by lia.
      rewrite Z.mod_small by lia. reflexivity.
Qed.

Lemma rot_mod_eq (l : list Z) (j k : Z) :
  let n := Z.of_nat (length l) in
  - n <= j <= n -> - n <= k <= n -> j mod n = k mod n -> rot l j = rot l k.
Proof.
  intros n Hj Hk E.
  destruct (Z.eq_dec n 0) as [Z0 | NZ].
  - assert (j = 0) by lia. assert (k = 0) by lia. subst. reflexivity.
  - rewrite (rot_mod l j), (rot_mod l k) by (fold n; lia).
    fold n. rewrite E. reflexivity.
Qed.

Lemma opp_mod_mod (k n : Z) : n <> 0 -> (- (k mod n)) mod n = (- k) mod n.
Proof.
  intros Hn.
  replace (- (k mod n)) with (- k + (k / n) * n).
  - apply Z.mod_add. exact Hn.
  - pose proof (Z.div_mod k n Hn). lia.
Qed.

Lemma length_rot (l : list Z) (k : Z) : length (rot l k) = length l.
Proof.
  unfold rot, slice_from, slice_to.
  rewrite length_app, length_drop, length_take.
  assert (slice_bound (length l) k <= length l)%nat; [| lia].
  unfold slice_bound.
  repeat match goal with |- context [Z.ltb ?a ?b] =>
    destruct (Z.ltb_spec a b) end; lia.
Qed.

(** Rotating by [k] and then by [-k] gives the array back. *)
Lemma rot_rot_opp (l : list Z) (k : Z) :
  0 <= k <= Z.of_nat (length l) -> rot (rot l k) (- k) = l.
Proof.
  intros Hk.
  destruct (Z.eq_dec k 0) as [-> | NZ]; [change (- 0) with 0; rewrite !rot_0; reflexivity |].
  unfold rot at 1. unfold slice_from, slice_to.
  rewrite length_rot.
  rewrite slice_bound_neg by lia.
  unfold rot, slice_from, slice_to. rewrite slice_bound_in by lia.
  set (i := Z.to_nat k).
  assert (Hi : (i <= length l)%nat) by lia.
  replace (Z.to_nat (- k + Z.of_nat (length l)))
    with (length (drop i l)) by (rewrite length_drop; lia).
  rewrite drop_app_length, take_app_length.
  apply take_drop.
Qed.

End Rotation.

(** ** Index checks and ranges *)

Section Ranges.

Lemma word_with_pixels (p : list Z) (s : t) (c : list Z) :
  word (with_pixels p s) c = word s c.
Proof. reflexivity. Qed.

Lemma for_each_app {A : Type} (xs ys : list A) (body : A -> M unit) (s : t) :
  for_each (xs ++ ys) body s =
    match for_each xs body s with
    | (inr _, s') => for_each ys body s'
    | (inl e, s') => (inl e, s')
    end.
Proof.
  revert s. induction xs as [| x xs IH]; intros s; [reflexivity |].
  cbn [app for_each]. unfold bind.
  destruct (body x s) as [[e | []] s1]; [reflexivity | apply IH].
Qed.

(** The loop of [set_pixel_line] over [k] indexes from [a], all within the
    array: each of them receives the word of the colour, no other slot
    changes. *)
Lemma line_loop (c : list Z) (k : nat) :
  forall (a : Z) (s : t),
    well_formed s -> pixel_colour c ->
    0 <= a -> (k <> 0%nat -> a + Z.of_nat k <= Z.of_nat (length (pixels s))) ->
    exists p',
      for_each (seqZ a (Z.of_nat k)) (fun i => set_pixel i c) s
        = (inr tt, with_pixels p' s) /\
      length p' = length (pixels s) /\
      forall j : nat,
        p' !! j = if bool_decide (a <= Z.of_nat j < a + Z.of_nat k)
                  then Some (word s c) else pixels s !! j.
Proof.
  induction k as [| k IH]; intros a s Hs Hc Ha Hk.
  - exists (pixels s). rewrite with_pixels_id.
    split; [reflexivity |]. split; [reflexivity |].
    intros j. rewrite bool_decide_eq_false_2 by lia. reflexivity.
  - specialize (Hk ltac:(discriminate)).
    rewrite seqZ_cons by lia.
    replace (Z.pred (Z.of_nat (S k))) with (Z.of_nat k) by lia.
    cbn [for_each]. unfold bind.
    rewrite (set_pixel_ok a c s Hs Hc), subscript_in by lia.
    set (w := word s c).
    set (s1 := with_pixels (<[Z.to_nat a := w]> (pixels s)) s).
    assert (L1 : length (pixels s1) = length (pixels s))
      by (subst s1; cbn; apply length_insert).
    assert (Hs1 : well_formed s1)
      by (apply well_formed_with_pixels; [apply length_insert | exact Hs]).
    destruct (IH (Z.succ a) s1) as (p' & E & L & F);
      [exact Hs1 | exact Hc | lia | rewrite L1; lia |].
    exists p'. split; [rewrite E; reflexivity |].
    split; [congruence |].
    intros j. rewrite F. subst s1. rewrite word_with_pixels. fold w.
    cbn [pixels with_pixels].
    destruct (decide (j = Z.to_nat a)) as [-> | NE].
    + rewrite bool_decide_eq_false_2 by lia.
      rewrite bool_decide_eq_true_2 by lia.
      apply list_lookup_insert_eq. lia.
    + rewrite list_lookup_insert_ne by congruence.
      destruct (decide (Z.succ a <= Z.of_nat j < Z.succ a + Z.of_nat k)).
      * rewrite !bool_decide_eq_true_2 by lia. reflexivity.
      * rewrite !bool_decide_eq_false_2 by lia. reflexivity.
Qed.

End Ranges.

(** ** Construction without validation *)

Section Construction.

Lemma str_index_in (c : ascii) (s : string) :
  c ∈ list_ascii_of_string s -> exists k, str_index c s = inr k.
Proof.
  induction s as [| d s IH]; cbn [list_ascii_of_string str_index]; intros H.
  - apply elem_of_nil in H. contradiction.
  - destruct (Ascii.eqb_spec c d) as [E | NE]; [eexists; reflexivity |].
    apply elem_of_cons in H as [H | H]; [contradiction |].
    destruct (IH H) as [k ->]. eexists; reflexivity.
Qed.

Lemma str_index_notin (c : ascii) (s : string) :
  c ∉ list_ascii_of_string s -> str_index c s = inl ValueError.
Proof.
  induction s as [| d s IH]; cbn [list_ascii_of_string str_index]; intros H;
    [reflexivity |].
  apply not_elem_of_cons in H as [NE H].
  destruct (Ascii.eqb_spec c d) as [E | _]; [contradiction |].
  rewrite (IH H). reflexivity.
Qed.

Lemma in_set_of_str (c : ascii) (s : string) :
  c ∈ set_of_str s <-> c ∈ list_ascii_of_string s.
Proof. unfold set_of_str. apply elem_of_list_to_set. Qed.

Lemma show_empty (s : t) : num_leds s <= 0 -> show s = (inr tt, s).
Proof.
  intros H. unfold show, bind, gets, range.
  rewrite seqZ_nil by lia. reflexivity.
Qed.

End Construction.

(** ** What every method leaves alone *)

Create HintDb frame.

Section Frame.

Lemma frame_ret {A : Type} (a : A) : frame (ret a).
Proof. intros s. cbn. auto 6. Qed.

Lemma frame_raise {A : Type} (e : exn) : frame (@raise A e).
Proof. intros s. cbn. auto 6. Qed.

Lemma frame_lift {A : Type} (r : res A) : frame (lift r).
Proof. intros s. cbn. auto 6. Qed.

Lemma frame_gets {A : Type} (f : t -> A) : frame (gets f).
Proof. intros s. cbn. auto 6. Qed.

Lemma frame_bind {A B : Type} (m : M A) (k : A -> M B) :
  frame m -> (forall a, frame (k a)) -> frame (bind m k).
Proof.
  intros Hm Hk s. unfold bind. specialize (Hm s).
  destruct (m s) as [[e | a] s1]; cbn [snd] in *; [exact Hm |].
  destruct (Hk a s1) as (H1 & H2 & H3 & H4 & H5).
  destruct Hm as (G1 & G2 & G3 & G4 & G5).
  split; [congruence |]. split; [congruence |]. split; [congruence |].
  split; [congruence |]. intros Hb. apply H5, G5, Hb.
Qed.

Lemma frame_if {A : Type} (b : bool) (m1 m2 : M A) :
  frame m1 -> frame m2 -> frame (if b then m1 else m2).
Proof. destruct b; auto. Qed.

Lemma frame_store (i v : Z) : frame (store i v).
Proof.
  intros s. unfold store, bind, gets, lift, modify.
  destruct (subscript (length (pixels s)) i); cbn; [auto 6 |].
  rewrite length_insert. auto 6.
Qed.

Lemma frame_brightness (arg : option Z) : frame (brightness arg).
Proof.
  intros s. destruct arg as [v |]; [| cbn; auto].
  rewrite brightness_set. cbn. repeat split; lia.
Qed.

#[local] Hint Resolve frame_ret frame_raise frame_lift frame_gets frame_bind
  frame_if frame_store frame_brightness : frame.

Lemma frame_scaled (c : Z) : frame (scaled c).
Proof.
  unfold scaled. apply frame_bind; [auto with frame |].
  intros [b |]; auto with frame.
Qed.

#[local] Hint Resolve frame_scaled : frame.

Lemma frame_set_pixel (i : Z) (c : list Z) : frame (set_pixel i c).
Proof. unfold set_pixel, has_white. auto 30 with frame. Qed.

#[local] Hint Resolve frame_set_pixel : frame.

Lemma frame_for_each {A : Type} (xs : list A) (body : A -> M unit) :
  (forall x, frame (body x)) -> frame (for_each xs body).
Proof. intros H. induction xs; cbn [for_each]; auto with frame. Qed.

#[local] Hint Resolve frame_for_each : frame.

Lemma frame_set_pixel_line (a b : Z) (c : list Z) : frame (set_pixel_line a b c).
Proof. unfold set_pixel_line. auto with frame. Qed.

Lemma frame_fill (c : list Z) : frame (fill c).
Proof. unfold fill. auto with frame. Qed.

Lemma frame_rotate_left (k : option Z) : frame (rotate_left k).
Proof.
  intros s. unfold rotate_left, bind, gets, modify. cbn.
  fold (rot (pixels s) (match k with Some k0 => k0 | None => 1 end)).
  rewrite length_rot. auto 6.
Qed.

Lemma frame_rotate_right (k : option Z) : frame (rotate_right k).
Proof.
  intros s. unfold rotate_right, bind, gets, modify. cbn [snd mode shift num_leds pixels with_pixels].
  fold (rot (pixels s) (-1 * match k with Some k0 => k0 | None => 1 end)).
  rewrite length_rot. auto 6.
Qed.

Lemma frame_show : frame show.
Proof.
  unfold show. apply frame_bind; [auto with frame |]. intros m.
  apply frame_bind; [auto with frame |]. intros n.
  apply frame_for_each. intros i.
  apply frame_bind; [auto with frame |]. intros p.
  apply frame_bind; [auto with frame |]. intros k.
  apply frame_bind; [auto with frame |]. intros w s. cbn. auto 6.
Qed.

Lemma frame_blend (a b : list Z) (f : Q) : frame (blend a b f).
Proof. unfold blend, has_white. auto 30 with frame. Qed.

#[local] Hint Resolve frame_blend : frame.

Lemma frame_set_pixel_line_gradient (a b : Z) (c1 c2 : list Z) :
  frame (set_pixel_line_gradient a b c1 c2).
Proof. unfold set_pixel_line_gradient. auto 30 with frame. Qed.

Lemma frame_segment_step cl p2 step rb i color j l :
  frame (segment_step cl p2 step rb i color j l).
Proof. unfold segment_step. auto 30 with frame. Qed.

#[local] Hint Resolve frame_segment_step : frame.

Lemma frame_segment_inner body js l :
  (forall j l, frame (body j l)) -> frame (segment_inner body js l).
Proof.
  intros H. revert l. induction js; intros l; cbn [segment_inner];
    auto 30 with frame.
Qed.

#[local] Hint Resolve frame_segment_inner : frame.

Lemma frame_segment_outer cl p2 step rb i rest l :
  frame (segment_outer cl p2 step rb i rest l).
Proof.
  revert i l. induction rest; intros i l; cbn [segment_outer];
    auto 30 with frame.
Qed.

#[local] Hint Resolve frame_segment_outer : frame.

Lemma frame_segment_gradient cl p1 p2 rv rb :
  frame (segment_gradient cl p1 p2 rv rb).
Proof. unfold segment_gradient. auto 30 with frame. Qed.

(** A well-formed buffer stays well formed, whatever the outcome. *)
Lemma frame_well_formed {A : Type} (m : M A) (s : t) :
  frame m -> well_formed s -> well_formed (snd (m s)).
Proof.
  intros F (Hs & Ht & Hb). destruct (F s) as (H1 & H2 & H3 & H4 & H5).
  unfold well_formed, sized. rewrite H1, H2, H3, H4.
  split; [assumption |]. split; [assumption | apply H5, Hb].
Qed.

Lemma init_well_formed (n sid pin : Z) (m : string) (d : Q) (s : t) :
  valid_mode m -> 0 <= n -> __init__ n sid pin m d = inr s -> well_formed s.
Proof.
  intros Hm Hn Hi.
  destruct (init_valid n sid pin m d Hm) as (sh & pg & E & Ht).
  rewrite E in Hi. injection Hi as <-.
  split; [| split; [exact Ht | cbn; lia]].
  unfold sized. cbn. rewrite length_replicate. lia.
Qed.

Lemma grb4_well_formed : well_formed grb4.
Proof.
  apply (init_well_formed 4 0 22 "GRB" (1 # 10000)).
  - left. apply (proj1 (permutations_Permutation _ _)). vm_compute. set_solver.
  - lia.
  - vm_compute. reflexivity.
Qed.

End Frame.

(** ** The claims *)

(** C1.  On a buffer constructed with a valid mode (a permutation of RGB or
    of RGBW), at any brightness in [1,255], any index in [0, num_leds) and any
    colour of 3 or 4 channels in [0,255], [set_pixel] succeeds and stores at
    the index a word whose lane of each channel, read at the shift of the
    channel, is [round(c[ch] * brightness / 255)].  With W in the mode the
    lane of W holds the scaled fourth channel (0 for a colour of three
    channels); without W the top lane is 0 and a fourth channel changes
    nothing. *)
Theorem set_pixel_roundtrip
    (n sid pin : Z) (m : string) (d : Q) (s0 : t)
    (px : list Z) (b idx : Z) (c : list Z) :
  valid_mode m ->
  __init__ n sid pin m d = inr s0 ->
  length px = length (pixels s0) ->
  1 <= b <= 255 ->
  0 <= idx < n ->
  (length c = 3 \/ length c = 4)%nat ->
  Forall (fun v => 0 <= v <= 255) c ->
  let s := with_brightnessvalue b (with_pixels px s0) in
  exists w,
    set_pixel idx c s = (inr tt, with_pixels (<[Z.to_nat idx := w]> px) s) /\
    <[Z.to_nat idx := w]> px !! Z.to_nat idx = Some w /\
    lane w (shift_R (shift s)) = expected (chan c 0) b /\
    lane w (shift_G (shift s)) = expected (chan c 1) b /\
    lane w (shift_B (shift s)) = expected (chan c 2) b /\
    ("W"%char ∈ mode s ->
       lane w (shift_W (shift s)) =
         if bool_decide (length c = 4%nat) then expected (chan c 3) b else 0) /\
    ("W"%char ∉ mode s ->
       lane w 24 = 0 /\ set_pixel idx c s = set_pixel idx (take 3 c) s).
Proof.
  intros Hm Hi Hpx Hb Hidx Hlen Hc s.
  destruct (init_valid n sid pin m d Hm) as (sh & pg & Ei & Ht).
  rewrite Ei in Hi. injection Hi as <-.
  cbn [pixels] in Hpx. rewrite length_replicate in Hpx.
  assert (Hsn : shifts_nonneg s).
  { destruct Ht as (r & g & bl & wl & -> & _ & _ & _ & Ht).
    unfold shifts_nonneg; subst s; cbn.
    destruct (bool_decide _); lia. }
  assert (Hin : 0 <= idx < Z.of_nat (length (pixels s)))
    by (subst s; cbn; lia).
  pose proof (word_lanes s c Ht Hb Hc) as (Hw & HR & HG & HB & HW).
  exists (word s c).
  assert (Hset : forall c', (3 <= length c')%nat ->
            set_pixel idx c' s =
              (inr tt, with_pixels (<[Z.to_nat idx := to_uint32 (word s c')]> px) s)).
  { intros c' Hc'. rewrite (set_pixel_word idx c' s Hsn Hc').
    rewrite (subscript_in _ _ Hin). reflexivity. }
  split; [| split; [| split; [| split; [| split; [| split]]]]].
  - rewrite Hset by lia. rewrite to_uint32_small by exact Hw. reflexivity.
  - apply list_lookup_insert_eq. lia.
  - exact HR.
  - exact HG.
  - exact HB.
  - intros Hin'. rewrite (bool_decide_eq_true_2 _ Hin') in HW. exact HW.
  - intros Hout. rewrite (bool_decide_eq_false_2 _ Hout) in HW.
    split; [exact HW |].
    rewrite !Hset by (rewrite ?length_take; lia).
    rewrite (word_ignores_fourth s c Hout). reflexivity.
Qed.

Lemma set_pixel_roundtrip_witness :
  (exists w,
     set_pixel 1 [255; 100; 7]
         (with_brightnessvalue 50 (with_pixels [0; 0; 0; 0] grb4))
       = (inr tt, with_pixels (<[1%nat := w]> [0; 0; 0; 0])
                    (with_brightnessvalue 50 (with_pixels [0; 0; 0; 0] grb4))) /\
     lane w 8 = expected 255 50 /\
     lane w 16 = expected 100 50 /\
     lane w 0 = expected 7 50 /\
     lane w 24 = 0) /\
  (exists w,
     set_pixel 2 [10; 20; 30; 40]
         (with_brightnessvalue 128 (with_pixels [0; 0; 0; 0] rgbw4))
       = (inr tt, with_pixels (<[2%nat := w]> [0; 0; 0; 0])
                    (with_brightnessvalue 128 (with_pixels [0; 0; 0; 0] rgbw4))) /\
     lane w 24 = expected 10 128 /\
     lane w 16 = expected 20 128 /\
     lane w 8 = expected 30 128 /\
     lane w 0 = expected 40 128).
Proof.
  assert (Hm : valid_mode "GRB").
  { left. apply (proj1 (permutations_Permutation _ _)).
    vm_compute. set_solver. }
  assert (Hm' : valid_mode "RGBW") by (right; reflexivity).
  assert (Hi : __init__ 4 0 22 "GRB" (1 # 10000) = inr grb4)
    by (vm_compute; reflexivity).
  assert (Hi' : __init__ 4 0 22 "RGBW" (1 # 10000) = inr rgbw4)
    by (vm_compute; reflexivity).
  assert (Hc : Forall (fun v => 0 <= v <= 255) [255; 100; 7])
    by (repeat constructor; lia).
  assert (Hc' : Forall (fun v => 0 <= v <= 255) [10; 20; 30; 40])
    by (repeat constructor; lia).
  assert (Hno : "W"%char ∉ mode grb4)
    by (apply (bool_decide_eq_false_1 _); vm_compute; reflexivity).
  assert (Hw : "W"%char ∈ mode rgbw4)
    by (apply (bool_decide_eq_true_1 _); vm_compute; reflexivity).
  split.
  - destruct (set_pixel_roundtrip 4 0 22 "GRB" (1 # 10000) grb4 [0; 0; 0; 0]
                50 1 [255; 100; 7] Hm Hi eq_refl ltac:(lia) ltac:(lia)
                (or_introl eq_refl) Hc)
      as (w & Hs & _ & HR & HG & HB & _ & HT).
    exists w. repeat split; try assumption. apply (HT Hno).
  - destruct (set_pixel_roundtrip 4 0 22 "RGBW" (1 # 10000) rgbw4 [0; 0; 0; 0]
                128 2 [10; 20; 30; 40] Hm' Hi' eq_refl ltac:(lia) ltac:(lia)
                (or_intror eq_refl) Hc')
      as (w & Hs & _ & HR & HG & HB & HW & _).
    exists w. repeat split; try assumption. apply (HW Hw).
Defined.

(** C2, as the code has it.  [None] as the offset acts as 1.  An offset of 0
    leaves the words as they are.  An offset from [-num_leds] to [num_leds]
    gives the words of the rotation by the offset modulo [num_leds].  An
    offset below [-num_leds] or above [num_leds] leaves the words as they
    are. *)
Theorem rotate_offsets (s : t) (k : Z) :
  sized s ->
  (rotate_left None s = rotate_left (Some 1) s /\
   rotate_right None s = rotate_right (Some 1) s) /\
  (rotate_left (Some 0) s = (inr tt, s) /\
   rotate_right (Some 0) s = (inr tt, s)) /\
  (- num_leds s <= k <= num_leds s ->
     rotate_left (Some k) s = rotate_left (Some (k mod num_leds s)) s /\
     rotate_right (Some k) s = rotate_right (Some (k mod num_leds s)) s) /\
  (k < - num_leds s \/ num_leds s < k ->
     rotate_left (Some k) s = (inr tt, s) /\
     rotate_right (Some k) s = (inr tt, s)).
Proof.
  unfold sized. intros Hs.
  split; [split; reflexivity |].
  rewrite !rotate_left_rot, !rotate_right_rot. change (- 0) with 0.
  rewrite rot_0, with_pixels_id.
  split; [split; reflexivity |].
  set (n := num_leds s) in *.
  split.
  - intros Hk.
    destruct (Z.eq_dec n 0) as [Z0 | NZ].
    { assert (k = 0) by lia. subst k. rewrite Z0. split; reflexivity. }
    assert (Hm : 0 <= k mod n < n) by (apply Z.mod_pos_bound; lia).
    split; f_equal; f_equal; apply rot_mod_eq; rewrite ?Hs; try lia.
    + rewrite Z.mod_mod by lia. reflexivity.
    + rewrite opp_mod_mod by lia. reflexivity.
  - intros Hk.
    rewrite !rot_out by lia. rewrite with_pixels_id. split; reflexivity.
Qed.

Lemma rotate_offsets_witness :
  (rotate_left (Some (-3)) grb4_1234 = rotate_left (Some 1) grb4_1234 /\
   rotate_right (Some (-3)) grb4_1234 = rotate_right (Some 1) grb4_1234) /\
  (rotate_left (Some 9) grb4_1234 = (inr tt, grb4_1234) /\
   rotate_right (Some 9) grb4_1234 = (inr tt, grb4_1234)).
Proof.
  assert (Hs : sized grb4_1234) by reflexivity.
  split.
  - apply (proj1 (proj2 (proj2 (rotate_offsets grb4_1234 (-3) Hs)))).
    cbn. lia.
  - apply (proj2 (proj2 (proj2 (rotate_offsets grb4_1234 9 Hs)))).
    cbn. lia.
Defined.

(** C2 as stated fails: an offset of 0 does not act as 1, and an offset above
    [num_leds] does not act as the offset modulo [num_leds]. *)
Lemma rotate_offsets_counterexample :
  num_leds grb4_1234 = 4 /\
  pixels (snd (rotate_left (Some 0) grb4_1234)) = [1; 2; 3; 4] /\
  pixels (snd (rotate_left (Some 1) grb4_1234)) = [2; 3; 4; 1] /\
  pixels (snd (rotate_left (Some 5) grb4_1234)) = [1; 2; 3; 4] /\
  pixels (snd (rotate_left (Some (5 mod 4)) grb4_1234)) = [2; 3; 4; 1] /\
  pixels (snd (rotate_right (Some (-5)) grb4_1234)) = [1; 2; 3; 4] /\
  pixels (snd (rotate_right (Some ((-5) mod 4)) grb4_1234)) = [2; 3; 4; 1] /\
  rotate_left (Some 0) grb4_1234 <> rotate_left (Some 1) grb4_1234 /\
  rotate_left (Some 5) grb4_1234
    <> rotate_left (Some (5 mod num_leds grb4_1234)) grb4_1234.
Proof.
  repeat split; try reflexivity; intros H; discriminate H.
Qed.

(** C3, as the code has it.  [__init__] checks neither the mode nor
    [num_leds].  It returns a buffer whenever each of R, G and B occurs in the
    mode string: the array has [num_leds] zero words (none when [num_leds] is
    not positive) and the brightness is 255.  It raises ValueError, from the
    index lookup of the string, when one of R, G and B does not occur.  On a
    buffer made with [num_leds <= 0], [show] returns normally and hands no
    word to the state machine. *)
Theorem init_no_validation (n sid pin : Z) (m : string) (d : Q) :
  let has c := c ∈ list_ascii_of_string m in
  (has "R"%char /\ has "G"%char /\ has "B"%char ->
     exists s,
       __init__ n sid pin m d = inr s /\
       pixels s = replicate (Z.to_nat n) 0 /\
       num_leds s = n /\
       brightnessvalue s = 255 /\
       mode s = set_of_str m /\
       (n <= 0 -> pixels s = [] /\ show s = (inr tt, s))) /\
  (~ (has "R"%char /\ has "G"%char /\ has "B"%char) ->
     __init__ n sid pin m d = inl ValueError).
Proof.
  intros has. subst has. cbv beta. unfold __init__.
  assert (HW : bool_decide ("W"%char ∈ set_of_str m) = true ->
               exists k, str_index "W"%char m = inr k).
  { intros H. apply bool_decide_eq_true_1 in H.
    apply str_index_in, in_set_of_str, H. }
  destruct (decide ("R"%char ∈ list_ascii_of_string m)) as [R | R];
    [destruct (str_index_in _ _ R) as [r ->]
    | rewrite (str_index_notin _ _ R)];
  (destruct (decide ("G"%char ∈ list_ascii_of_string m)) as [G | G];
    [destruct (str_index_in _ _ G) as [g ->]
    | rewrite (str_index_notin _ _ G)]);
  (destruct (decide ("B"%char ∈ list_ascii_of_string m)) as [B | B];
    [destruct (str_index_in _ _ B) as [b ->]
    | rewrite (str_index_notin _ _ B)]);
  (destruct (bool_decide ("W"%char ∈ set_of_str m));
    [destruct (HW eq_refl) as [w ->] | ]);
  cbn [Py.bind];
  (split; [intros (? & ? & ?) | intros N]);
  try contradiction; try reflexivity; try (exfalso; apply N; tauto).
  all: eexists; split; [reflexivity |]; cbn [pixels num_leds brightnessvalue mode].
  all: repeat split; try reflexivity.
  all: try (replace (Z.to_nat n) with 0%nat by lia; reflexivity).
  all: apply show_empty; cbn; lia.
Qed.

Lemma init_no_validation_witness :
  (exists s,
     __init__ 0 0 22 "RGB" (1 # 10000) = inr s /\ pixels s = [] /\
     show s = (inr tt, s)) /\
  __init__ 4 0 22 "RBW" (1 # 10000) = inl ValueError.
Proof.
  split.
  - destruct (proj1 (init_no_validation 0 0 22 "RGB" (1 # 10000)))
      as (s & E & _ & _ & _ & _ & H).
    + repeat split;
        match goal with |- ?P => apply (bool_decide_eq_true_1 P) end;
        vm_compute; reflexivity.
    + exists s. split; [exact E |]. apply H. lia.
  - apply (proj2 (init_no_validation 4 0 22 "RBW" (1 # 10000))).
    intros (_ & G & _). revert G.
    apply (bool_decide_eq_false_1 ("G"%char ∈ list_ascii_of_string "RBW")).
    vm_compute. reflexivity.
Defined.

(** C3 as stated fails: [num_leds = 0] is accepted, and [show] runs on the
    empty buffer; the mode "RGBRGB", which is no permutation of RGB or of
    RGBW, is accepted too. *)
Lemma init_no_validation_counterexample :
  __init__ 0 0 22 "RGB" (1 # 10000) = inr rgb0 /\
  show rgb0 = (inr tt, rgb0) /\
  ~ valid_mode "RGBRGB" /\
  __init__ 4 0 22 "RGBRGB" (1 # 10000) = inr rgbrgb4.
Proof.
  split; [vm_compute; reflexivity |].
  split; [vm_compute; reflexivity |].
  split; [| vm_compute; reflexivity].
  intros [H | H]; apply Permutation_length in H; discriminate H.
Qed.

(** C4, as the code has it.  On a well-formed buffer, with a colour of three
    or four channels in [0,255] and [0 <= first <= last]: when
    [last < num_leds], [set_pixel_line] returns normally, every slot from
    [first] to [last] holds the word [set_pixel] writes for the colour and
    every other slot is as before; when [num_leds <= last], it raises
    IndexError with no check beforehand, and the slots from [first] to
    [num_leds - 1] keep the word written before the failure. *)
Theorem set_pixel_line_range (s : t) (first last : Z) (c : list Z) :
  well_formed s ->
  pixel_colour c ->
  0 <= first <= last ->
  let w := word s c in
  (forall i, 0 <= i < num_leds s ->
     set_pixel i c s = (inr tt, with_pixels (<[Z.to_nat i := w]> (pixels s)) s)) /\
  (last < num_leds s ->
     exists p',
       set_pixel_line first last c s = (inr tt, with_pixels p' s) /\
       length p' = length (pixels s) /\
       forall j : nat,
         p' !! j = if bool_decide (first <= Z.of_nat j <= last)
                   then Some w else pixels s !! j) /\
  (num_leds s <= last ->
     exists p',
       set_pixel_line first last c s = (inl IndexError, with_pixels p' s) /\
       length p' = length (pixels s) /\
       forall j : nat,
         p' !! j = if bool_decide (first <= Z.of_nat j < num_leds s)
                   then Some w else pixels s !! j).
Proof.
  intros Hwf Hc Hfl w.
  assert (Hs : Z.of_nat (length (pixels s)) = num_leds s) by apply Hwf.
  split; [| split].
  - intros i Hi. rewrite (set_pixel_ok i c s Hwf Hc), subscript_in by lia.
    reflexivity.
  - intros Hl. unfold set_pixel_line, range.
    destruct (line_loop c (Z.to_nat (last + 1 - first)) first s)
      as (p' & E & L & F); [assumption | assumption | lia | lia |].
    rewrite Z2Nat.id in E, F by lia.
    exists p'. split; [exact E |]. split; [exact L |].
    intros j. rewrite F.
    destruct (decide (first <= Z.of_nat j <= last)).
    + rewrite !bool_decide_eq_true_2 by lia. reflexivity.
    + rewrite !bool_decide_eq_false_2 by lia. reflexivity.
  - intros Hl. unfold set_pixel_line, range.
    set (m := Z.max 0 (num_leds s - first)).
    replace (last + 1 - first) with (m + (last + 1 - first - m)) by lia.
    rewrite seqZ_app by (subst m; lia). rewrite for_each_app.
    destruct (line_loop c (Z.to_nat m) first s)
      as (p' & E & L & F); [assumption | assumption | lia | subst m; lia |].
    rewrite Z2Nat.id in E, F by (subst m; lia).
    rewrite E. rewrite seqZ_cons by (subst m; lia). cbn [for_each]. unfold bind.
    rewrite (set_pixel_ok _ c (with_pixels p' s)
               (well_formed_with_pixels p' s L Hwf) Hc).
    cbn [pixels with_pixels]. rewrite subscript_out by (subst m; lia).
    exists p'. split; [reflexivity |]. split; [exact L |].
    intros j. rewrite F.
    destruct (decide (first <= Z.of_nat j < num_leds s)).
    + rewrite !bool_decide_eq_true_2 by (subst m; lia). reflexivity.
    + rewrite !bool_decide_eq_false_2 by (subst m; lia). reflexivity.
Qed.

Lemma set_pixel_line_range_witness :
  (exists p',
     set_pixel_line 1 2 [255; 0; 0] grb4 = (inr tt, with_pixels p' grb4) /\
     p' !! 1%nat = Some 65280 /\ p' !! 2%nat = Some 65280 /\
     p' !! 0%nat = Some 0 /\ p' !! 3%nat = Some 0) /\
  (exists p',
     set_pixel_line 2 5 [255; 0; 0] grb4 = (inl IndexError, with_pixels p' grb4) /\
     p' !! 2%nat = Some 65280 /\ p' !! 3%nat = Some 65280).
Proof.
  pose proof grb4_well_formed as Hs.
  assert (Hc : pixel_colour [255; 0; 0])
    by (split; [left; reflexivity | repeat constructor; lia]).
  split.
  - destruct (proj1 (proj2 (set_pixel_line_range grb4 1 2 [255; 0; 0]
                              Hs Hc ltac:(lia))))
      as (p' & E & _ & F); [cbn; lia |].
    exists p'. split; [exact E |].
    repeat split; rewrite F; reflexivity.
  - destruct (proj2 (proj2 (set_pixel_line_range grb4 2 5 [255; 0; 0]
                              Hs Hc ltac:(lia))))
      as (p' & E & _ & F); [cbn; lia |].
    exists p'. split; [exact E |].
    split; rewrite F; reflexivity.
Defined.

(** C4 as stated fails: with the endpoint 5 outside a buffer of four words,
    the call raises IndexError after it has written the slots 2 and 3; and
    with the endpoints 3 and 1, in this order, it writes no slot. *)
Lemma set_pixel_line_range_counterexample :
  __init__ 4 0 22 "GRB" (1 # 10000) = inr grb4 /\
  set_pixel_line 2 5 [255; 0; 0] grb4
    = (inl IndexError, with_pixels [0; 0; 65280; 65280] grb4) /\
  pixels (snd (set_pixel_line 2 5 [255; 0; 0] grb4)) <> pixels grb4 /\
  set_pixel_line 3 1 [255; 0; 0] grb4 = (inr tt, grb4).
Proof.
  split; [vm_compute; reflexivity |].
  split; [vm_compute; reflexivity |].
  split; [intros H; vm_compute in H; discriminate H |].
  vm_compute; reflexivity.
Qed.

(** C5, as the code has it.  On a well-formed buffer, with a colour of three
    or four channels in [0,255], [set_pixel] with an index of at least
    [num_leds], or below [-num_leds], raises IndexError and leaves the object
    as it is; an index from [-num_leds] to [-1] counts from the end of the
    array: the call returns normally and writes the slot at the index plus
    [num_leds]. *)
Theorem set_pixel_index_error (s : t) (idx : Z) (c : list Z) :
  well_formed s ->
  pixel_colour c ->
  (idx < - num_leds s \/ num_leds s <= idx ->
     set_pixel idx c s = (inl IndexError, s)) /\
  (- num_leds s <= idx < 0 ->
     set_pixel idx c s
       = (inr tt,
          with_pixels (<[Z.to_nat (idx + num_leds s) := word s c]> (pixels s)) s)).
Proof.
  intros Hwf Hc.
  assert (Hs : Z.of_nat (length (pixels s)) = num_leds s) by apply Hwf.
  rewrite (set_pixel_ok idx c s Hwf Hc). split; intros H.
  - rewrite subscript_out by lia. reflexivity.
  - rewrite subscript_neg by lia. rewrite Hs. reflexivity.
Qed.

Lemma set_pixel_index_error_witness :
  set_pixel 4 [255; 0; 7] grb4 = (inl IndexError, grb4) /\
  set_pixel (-5) [255; 0; 7] grb4 = (inl IndexError, grb4) /\
  set_pixel (-1) [255; 0; 7] grb4
    = (inr tt, with_pixels [0; 0; 0; 65287] grb4).
Proof.
  pose proof grb4_well_formed as Hs.
  assert (Hc : pixel_colour [255; 0; 7])
    by (split; [left; reflexivity | repeat constructor; lia]).
  split; [| split].
  - apply (proj1 (set_pixel_index_error grb4 4 [255; 0; 7] Hs Hc)). cbn. lia.
  - apply (proj1 (set_pixel_index_error grb4 (-5) [255; 0; 7] Hs Hc)). cbn. lia.
  - apply (proj2 (set_pixel_index_error grb4 (-1) [255; 0; 7] Hs Hc)). cbn. lia.
Defined.

(** C5 as stated fails: the index -1 is outside [0, num_leds), and
    [set_pixel] returns normally and writes the last slot. *)
Lemma set_pixel_index_error_counterexample :
  __init__ 4 0 22 "GRB" (1 # 10000) = inr grb4 /\
  ~ (0 <= -1 < num_leds grb4) /\
  set_pixel (-1) [255; 0; 7] grb4
    = (inr tt, with_pixels [0; 0; 0; 65287] grb4) /\
  set_pixel (-1) [255; 0; 7] grb4 <> (inl IndexError, grb4).
Proof.
  split; [vm_compute; reflexivity |].
  split; [cbn; lia |].
  split; [vm_compute; reflexivity |].
  intros H. vm_compute in H. discriminate H.
Qed.

(** C6.  On a buffer whose array has [num_leds] words, for every [k] with
    [0 <= k <= num_leds], [rotate_left(k)] followed by [rotate_right(k)]
    returns normally and leaves the object, and so the sequence of words, as
    it was. *)
Theorem rotate_left_right (s : t) (k : Z) :
  sized s ->
  0 <= k <= num_leds s ->
  (_ <- rotate_left (Some k) ;; rotate_right (Some k)) s = (inr tt, s).
Proof.
  unfold sized. intros Hs Hk.
  unfold bind. rewrite rotate_left_rot, rotate_right_rot.
  cbn [pixels with_pixels mode sm shift num_leds delay brightnessvalue].
  rewrite rot_rot_opp by lia.
  destruct s; reflexivity.
Qed.

Lemma rotate_left_right_witness :
  (_ <- rotate_left (Some 3) ;; rotate_right (Some 3)) grb4_1234
    = (inr tt, grb4_1234).
Proof.
  apply rotate_left_right.
  - reflexivity.
  - cbn. lia.
Defined.

(** C7.  [brightness] changes the brightness scalar only: the object after
    the call is the object before it with a new [brightnessvalue], so the
    array of words is the same; a word written by [set_pixel] is still there
    after a later change of brightness, and [show] hands the state machine the
    same words as it would have without the change. *)
Theorem brightness_frame (arg : option Z) (s : t) (idx : Z) (c : list Z) :
  (exists b, snd (brightness arg s) = with_brightnessvalue b s) /\
  pixels (snd (brightness arg s)) = pixels s /\
  pixels (snd ((_ <- set_pixel idx c ;; brightness arg) s)) =
    pixels (snd (set_pixel idx c s)) /\
  sm_tx (sm (snd (show (snd (brightness arg s))))) = sm_tx (sm (snd (show s))).
Proof.
  assert (F : forall s', exists b, snd (brightness arg s') = with_brightnessvalue b s').
  { intros s'. destruct arg as [v |].
    - rewrite brightness_set. eexists; reflexivity.
    - exists (brightnessvalue s'). rewrite brightness_get.
      symmetry. apply with_brightnessvalue_id. }
  split; [apply F |].
  split; [destruct (F s) as [b ->]; reflexivity |].
  split.
  - unfold bind. destruct (set_pixel idx c s) as [[e | []] s1]; [reflexivity |].
    destruct (F s1) as [b Hb]. cbn [snd].
    destruct (brightness arg s1) as [r s2]. cbn [snd] in *. subst s2.
    reflexivity.
  - destruct (F s) as [b ->]. rewrite show_brightness. reflexivity.
Qed.

(** The scaling happens when the pixel is set: a red pixel set at
    brightness 255 keeps its word when the brightness goes down to 50, and
    only a second [set_pixel] writes the dimmer word. *)
Example brightness_at_set_time :
  pixels (snd ((_ <- set_pixel 0 r1 ;; brightness (Some 50)) grb4))
    = [65280; 0; 0; 0] /\
  pixels (snd ((_ <- set_pixel 0 r1 ;; _ <- brightness (Some 50) ;;
                set_pixel 0 r1) grb4))
    = [12800; 0; 0; 0].
Proof. split; vm_compute; reflexivity. Qed.

(** C8.  [brightness] with a value stores the value clamped to [1,255]:
    below 1 it stores 1, above 255 it stores 255, and in between the value
    itself; so 0 acts as 1 and 300 as 255.  With [None] it returns the
    current brightness and leaves the object as it is. *)
Theorem brightness_clamp (v : Z) (s : t) :
  (v < 1 -> brightness (Some v) s = (inr None, with_brightnessvalue 1 s)) /\
  (255 < v -> brightness (Some v) s = (inr None, with_brightnessvalue 255 s)) /\
  (1 <= v <= 255 -> brightness (Some v) s = (inr None, with_brightnessvalue v s)) /\
  brightness (Some 0) s = brightness (Some 1) s /\
  brightness (Some 300) s = brightness (Some 255) s /\
  brightness None s = (inr (Some (brightnessvalue s)), s).
Proof.
  rewrite !brightness_set.
  repeat split; intros.
  - rewrite Z.max_l, Z.min_r by lia. reflexivity.
  - rewrite Z.max_r, Z.min_l by lia. reflexivity.
  - rewrite Z.max_r, Z.min_r by lia. reflexivity.
Qed.

Lemma brightness_clamp_witness :
  brightness (Some (-7)) grb4 = (inr None, with_brightnessvalue 1 grb4) /\
  brightness (Some 1000) grb4 = (inr None, with_brightnessvalue 255 grb4) /\
  brightness (Some 50) grb4 = (inr None, with_brightnessvalue 50 grb4).
Proof.
  split; [| split].
  - apply (proj1 (brightness_clamp (-7) grb4)). lia.
  - apply (proj1 (proj2 (brightness_clamp 1000 grb4))). lia.
  - apply (proj1 (proj2 (proj2 (brightness_clamp 50 grb4)))). lia.
Defined.

(** C9.  With a list of exactly four colours, [segment_gradient] sets
    [rainbow] and clears [reverse] before its loops, whatever was passed: the
    outcome and the object after the call are those of the call with
    [rainbow = true] and [reverse = false]. *)
Theorem segment_gradient_four
    (color_list : list (list Z)) (pixel1 pixel2 : Z) (reverse rainbow : bool)
    (s : t) :
  length color_list = 4%nat ->
  segment_gradient color_list pixel1 pixel2 reverse rainbow s
    = segment_gradient color_list pixel1 pixel2 false true s.
Proof.
  intros H. unfold segment_gradient. rewrite H. reflexivity.
Qed.

Lemma segment_gradient_four_witness :
  segment_gradient [r1; y2; g1; b5] 0 15 true false grb16
    = segment_gradient [r1; y2; g1; b5] 0 15 false true grb16.
Proof.
  apply segment_gradient_four. reflexivity.
Defined.

(** The words of the example: four segments, from red by yellow, green and
    blue back to red. *)
Example segment_gradient_rainbow :
  segment_gradient [r1; y2; g1; b5] 0 15 false false grb16
    = (inr tt,
       with_pixels
         [65280; 4259584; 8453888; 12582656; 16776960; 16760576; 16744448;
          16728064; 16711680; 12517440; 8388736; 4194495; 255; 21930; 43605;
          65280] grb16).
Proof. vm_compute. reflexivity. Qed.

(** With two colours the arguments are not overridden: the two settings give
    different words. *)
Example segment_gradient_two_differs :
  segment_gradient [y1; r1] 0 15 true false grb16
    <> segment_gradient [y1; r1] 0 15 false true grb16.
Proof. intros H. vm_compute in H. discriminate H. Qed.

(** C10.  [set_pixel] does not mask a scaled channel to 8 bits.  On a buffer
    of mode RGB at brightness 255, the colour (0, 256, 0) is stored as a word
    whose lane of R holds 1, where the same colour with the green channel
    masked to 8 bits is stored as a word whose lane of R holds 0; so the lane
    of R does not hold [round(c[R] * brightness / 255)], nor the lane of G
    the scaled green. *)
Theorem set_pixel_no_mask :
  exists (c : list Z) (w w' : Z),
    __init__ 4 0 22 "RGB" (1 # 10000) = inr rgb4 /\
    brightnessvalue rgb4 = 255 /\
    255 < chan c 1 /\
    set_pixel 0 c rgb4
      = (inr tt, with_pixels (<[0%nat := w]> (pixels rgb4)) rgb4) /\
    set_pixel 0 (<[1%nat := Z.land (chan c 1) 255]> c) rgb4
      = (inr tt, with_pixels (<[0%nat := w']> (pixels rgb4)) rgb4) /\
    lane w (shift_R (shift rgb4)) = 1 /\
    lane w' (shift_R (shift rgb4)) = 0 /\
    lane w (shift_R (shift rgb4)) <> expected (chan c 0) 255 /\
    lane w (shift_G (shift rgb4)) <> expected (chan c 1) 255.
Proof.
  exists [0; 256; 0], 65536, 0.
  split; [vm_compute; reflexivity |].
  split; [reflexivity |].
  split; [cbn; lia |].
  split; [vm_compute; reflexivity |].
  split; [vm_compute; reflexivity |].
  split; [reflexivity |].
  split; [reflexivity |].
  split; intros H; vm_compute in H; discriminate H.
Qed.

(** * Further properties of the driver *)

(** ** [fill] and [show] *)

Section FillShow.

Lemma rot_replicate (n : nat) (w k : Z) : rot (replicate n w) k = replicate n w.
Proof.
  unfold rot, slice_from, slice_to. rewrite length_replicate.
  set (m := slice_bound n k).
  assert (Hm : (m <= n)%nat).
  { subst m. unfold slice_bound.
    repeat match goal with |- context [Z.ltb ?a ?b] =>
      destruct (Z.ltb_spec a b) end; lia. }
  rewrite drop_replicate, take_replicate, <- replicate_add.
  f_equal. lia.
Qed.

Lemma fill_word (c : list Z) (s : t) :
  well_formed s -> pixel_colour c ->
  fill c s = (inr tt, with_pixels (replicate (length (pixels s)) (word s c)) s).
Proof.
  intros Hwf Hc.
  assert (Hs : Z.of_nat (length (pixels s)) = num_leds s) by apply Hwf.
  unfold fill, bind, gets, range. rewrite Z.sub_0_r.
  destruct (line_loop c (length (pixels s)) 0 s) as (p' & E & L & F);
    [assumption | assumption | lia | lia |].
  rewrite Hs in E. rewrite E. do 2 f_equal.
  apply list_eq. intros j. rewrite F.
  destruct (decide (j < length (pixels s))%nat) as [Hj | Hj].
  - rewrite bool_decide_eq_true_2 by lia.
    symmetry. apply lookup_replicate_2. exact Hj.
  - rewrite bool_decide_eq_false_2 by lia.
    rewrite (lookup_ge_None_2 (pixels s)) by lia.
    symmetry. apply lookup_ge_None_2. rewrite length_replicate. lia.
Qed.

(** The loop of [show] from index [a] on: the words from [a] on reach the
    state machine in order, nothing else changes. *)
Lemma show_loop (cut : Z) (k : nat) :
  forall (a : nat) (s : t),
    (a + k = length (pixels s))%nat ->
    for_each (seqZ (Z.of_nat a) (Z.of_nat k)) (fun i =>
        p <- gets pixels ;;
        j <- lift (subscript (length p) i) ;;
        w <- lift (getitem p j) ;;
        modify (fun s => with_sm (put w cut (sm s)) s)) s
      = (inr tt,
         with_sm (mkStateMachine (sm_id (sm s)) (sm_program (sm s))
                    (sm_freq (sm s)) (sm_pin (sm s)) (sm_active (sm s))
                    (sm_tx (sm s) ++ ((fun w => (w, cut)) <$> drop a (pixels s))))
                 s).
Proof.
  induction k as [| k IH]; intros a s Hk.
  - rewrite drop_ge by lia. cbn. rewrite app_nil_r.
    destruct s as [p m [] sh n d b]; reflexivity.
  - rewrite seqZ_cons by lia.
    replace (Z.pred (Z.of_nat (S k))) with (Z.of_nat k) by lia.
    replace (Z.succ (Z.of_nat a)) with (Z.of_nat (S a)) by lia.
    cbn [for_each]. unfold bind at 1 2 3 4. unfold gets at 1, lift at 1 2.
    rewrite subscript_in by lia. rewrite Nat2Z.id.
    destruct (pixels s !! a) as [w |] eqn:Ew;
      [| apply lookup_ge_None_1 in Ew; lia].
    unfold getitem. rewrite Ew. unfold modify at 1.
    rewrite IH by (cbn; lia).
    cbn [pixels sm with_sm put sm_id sm_program sm_freq sm_pin sm_active sm_tx
         mode shift num_leds delay brightnessvalue].
    rewrite (drop_S _ _ _ Ew). cbn [fmap list_fmap].
    rewrite <- app_assoc. reflexivity.
Qed.

End FillShow.

(** X1.  On a well-formed buffer, [fill] with a colour of three or four
    channels in [0,255] returns normally, and afterwards every slot holds the
    word [set_pixel] writes for the colour: the array does not depend on what
    it held before. *)
Theorem fill_all (c : list Z) (s : t) :
  well_formed s ->
  pixel_colour c ->
  fill c s = (inr tt, with_pixels (replicate (length (pixels s)) (word s c)) s) /\
  (forall i, 0 <= i < num_leds s ->
     pixels (snd (fill c s)) !! Z.to_nat i = Some (word s c)) /\
  (forall p, length p = length (pixels s) ->
     fill c (with_pixels p s) = fill c s).
Proof.
  intros Hwf Hc.
  assert (Hs : Z.of_nat (length (pixels s)) = num_leds s) by apply Hwf.
  rewrite (fill_word c s Hwf Hc).
  split; [reflexivity |]. split.
  - intros i Hi. cbn. apply lookup_replicate_2. lia.
  - intros p Hp.
    rewrite (fill_word c _ (well_formed_with_pixels p s Hp Hwf) Hc).
    cbn. rewrite Hp. reflexivity.
Qed.

Lemma fill_all_witness :
  fill [255; 0; 0] grb4 = (inr tt, with_pixels [65280; 65280; 65280; 65280] grb4).
Proof.
  assert (Hc : pixel_colour [255; 0; 0])
    by (split; [left; reflexivity | repeat constructor; lia]).
  apply (proj1 (fill_all [255; 0; 0] grb4 grb4_well_formed Hc)).
Defined.

(** X2.  After [fill], a rotation by any offset, to the left or to the right,
    changes nothing. *)
Theorem fill_rotate (c : list Z) (k : option Z) (s : t) :
  well_formed s ->
  pixel_colour c ->
  (_ <- fill c ;; rotate_left k) s = fill c s /\
  (_ <- fill c ;; rotate_right k) s = fill c s.
Proof.
  intros Hwf Hc. unfold bind. rewrite (fill_word c s Hwf Hc).
  destruct k as [k |]; rewrite ?rotate_left_rot, ?rotate_right_rot;
    unfold rotate_left, rotate_right, bind, gets, modify;
    cbn [pixels with_pixels mode sm shift num_leds delay brightnessvalue];
    fold (rot (replicate (length (pixels s)) (word s c)) 1);
    fold (rot (replicate (length (pixels s)) (word s c)) (-1 * 1));
    rewrite !rot_replicate; split; reflexivity.
Qed.

Lemma fill_rotate_witness :
  (_ <- fill [255; 0; 0] ;; rotate_left (Some 3)) grb4 = fill [255; 0; 0] grb4 /\
  (_ <- fill [255; 0; 0] ;; rotate_right None) grb4 = fill [255; 0; 0] grb4.
Proof.
  assert (Hc : pixel_colour [255; 0; 0])
    by (split; [left; reflexivity | repeat constructor; lia]).
  split.
  - apply (proj1 (fill_rotate [255; 0; 0] (Some 3) grb4 grb4_well_formed Hc)).
  - apply (proj2 (fill_rotate [255; 0; 0] None grb4 grb4_well_formed Hc)).
Defined.

(** X3.  On a buffer whose array has [num_leds] words, [show] returns
    normally, hands every word of the array to the state machine, in index
    order and each with the shift 8 (0 when the mode has W), after what was
    handed over before, and changes nothing else in the object. *)
Theorem show_transmits (s : t) :
  sized s ->
  let cut := if bool_decide ("W"%char ∈ mode s) then 0 else 8 in
  show s =
    (inr tt,
     with_sm (mkStateMachine (sm_id (sm s)) (sm_program (sm s))
                (sm_freq (sm s)) (sm_pin (sm s)) (sm_active (sm s))
                (sm_tx (sm s) ++ ((fun w => (w, cut)) <$> pixels s)))
             s).
Proof.
  intros Hs cut. unfold sized in Hs.
  unfold show, bind at 1 2, gets at 1 2, range. rewrite Z.sub_0_r, <- Hs.
  apply (show_loop cut (length (pixels s)) 0 s). reflexivity.
Qed.

Lemma show_transmits_witness :
  sm_tx (sm (snd (show grb4_1234))) = [(1, 8); (2, 8); (3, 8); (4, 8)] /\
  pixels (snd (show grb4_1234)) = [1; 2; 3; 4].
Proof.
  rewrite (show_transmits grb4_1234 eq_refl). split; reflexivity.
Defined.

(** ** More on rotation *)

Section RotationAlgebra.

Lemma rot_Permutation (l : list Z) (k : Z) : rot l k ≡ₚ l.
Proof.
  unfold rot, slice_from, slice_to.
  rewrite Permutation_app_comm. rewrite take_drop. reflexivity.
Qed.

(** The word at [i] after a rotation by [k] is the word that was at
    [(i + k) mod n]. *)
Lemma lookup_rot (l : list Z) (k : Z) (i : nat) :
  let n := Z.of_nat (length l) in
  - n <= k <= n -> (i < length l)%nat ->
  rot l k !! i = l !! Z.to_nat ((Z.of_nat i + k) mod n).
Proof.
  intros n Hk Hi.
  assert (Hn : 0 < n) by lia.
  rewrite (rot_mod l k Hn Hk). fold n.
  pose proof (Z.mod_pos_bound k n Hn) as Hm.
  set (m := Z.to_nat (k mod n)).
  assert (Em : Z.of_nat m = k mod n) by lia.
  rewrite <- (Zplus_mod_idemp_r k), <- Em.
  destruct (decide (i + m < length l)%nat) as [Lt | Ge].
  - rewrite lookup_app_l by (rewrite length_drop; lia).
    rewrite lookup_drop. rewrite Z.mod_small by lia. f_equal. lia.
  - rewrite lookup_app_r by (rewrite length_drop; lia).
    rewrite length_drop, lookup_take_lt by lia.
    replace ((Z.of_nat i + Z.of_nat m) mod n)
      with (Z.of_nat i + Z.of_nat m - n).
    + f_equal. lia.
    + symmetry. rewrite <- (Z.mod_add _ (-1) n) by lia.
      apply Z.mod_small. lia.
Qed.

(** Two rotations in a row, by offsets within the length on either side, are
    one rotation by any offset within the length that agrees with the sum
    modulo the length. *)
Lemma rot_rot (l : list Z) (x y z : Z) :
  let n := Z.of_nat (length l) in
  - n <= x <= n -> - n <= y <= n -> - n <= z <= n ->
  z mod n = (x + y) mod n ->
  rot (rot l x) y = rot l z.
Proof.
  intros n Hx Hy Hz E.
  destruct (Z.eq_dec n 0) as [Z0 | NZ].
  { assert (x = 0) by lia. assert (y = 0) by lia. assert (z = 0) by lia.
    subst x y z. rewrite !rot_0. reflexivity. }
  apply list_eq. intros i.
  destruct (decide (i < length l)%nat) as [Hi | Hi].
  - rewrite lookup_rot by (rewrite length_rot; fold n; lia).
    rewrite length_rot. fold n.
    assert (Hb : 0 <= (Z.of_nat i + y) mod n < n)
      by (apply Z.mod_pos_bound; lia).
    rewrite lookup_rot by (fold n; lia). fold n.
    rewrite (lookup_rot l z i) by (fold n; lia). fold n.
    rewrite Z2Nat.id by lia.
    f_equal. f_equal.
    rewrite Zplus_mod_idemp_l.
    rewrite <- (Zplus_mod_idemp_r z), E, Zplus_mod_idemp_r.
    f_equal. lia.
  - rewrite !lookup_ge_None_2 by (rewrite ?length_rot; lia). reflexivity.
Qed.

(** [j] rotations by one step are one rotation by [j] steps. *)
Lemma rot_steps (step : Z) (j : nat) :
  forall l : list Z,
    step = 1 \/ step = -1 ->
    Z.of_nat j <= Z.of_nat (length l) ->
    Nat.iter j (fun l => rot l step) l = rot l (step * Z.of_nat j).
Proof.
  induction j as [| j IH]; intros l Hs Hj.
  - rewrite Z.mul_0_r, rot_0. reflexivity.
  - rewrite Nat.iter_succ, IH by lia.
    apply rot_rot; try lia. f_equal. lia.
Qed.

Lemma with_pixels_twice (p q : list Z) (s : t) :
  with_pixels p (with_pixels q s) = with_pixels p s.
Proof. reflexivity. Qed.

Lemma for_each_rotate_left (k : Z) (xs : list Z) (s : t) :
  for_each xs (fun _ => rotate_left (Some k)) s
    = (inr tt, with_pixels (Nat.iter (length xs) (fun l => rot l k) (pixels s)) s).
Proof.
  revert s. induction xs as [| x xs IH]; intros s.
  - cbn. rewrite with_pixels_id. reflexivity.
  - cbn [for_each length]. unfold bind. rewrite rotate_left_rot, IH.
    cbn [pixels with_pixels mode sm shift num_leds delay brightnessvalue].
    rewrite Nat.iter_succ_r. reflexivity.
Qed.

Lemma for_each_rotate_right (k : Z) (xs : list Z) (s : t) :
  for_each xs (fun _ => rotate_right (Some k)) s
    = (inr tt,
       with_pixels (Nat.iter (length xs) (fun l => rot l (- k)) (pixels s)) s).
Proof.
  revert s. induction xs as [| x xs IH]; intros s.
  - cbn. rewrite with_pixels_id. reflexivity.
  - cbn [for_each length]. unfold bind. rewrite rotate_right_rot, IH.
    cbn [pixels with_pixels mode sm shift num_leds delay brightnessvalue].
    rewrite Nat.iter_succ_r. reflexivity.
Qed.

End RotationAlgebra.

(** X4.  A rotation, to the left or to the right and by any offset (unset,
    negative or beyond the length included), returns normally and rearranges
    the words: the array after the call is a permutation of the array before,
    so no word is lost or repeated and the length stays. *)
Theorem rotate_permutes (k : option Z) (s : t) :
  (fst (rotate_left k s) = inr tt /\ pixels (snd (rotate_left k s)) ≡ₚ pixels s) /\
  (fst (rotate_right k s) = inr tt /\ pixels (snd (rotate_right k s)) ≡ₚ pixels s).
Proof.
  destruct k as [k |]; unfold rotate_left, rotate_right, bind, gets, modify;
    cbn [fst snd pixels with_pixels];
    (split; (split; [reflexivity | apply rot_Permutation])).
Qed.

(** X5.  On a buffer whose array has [num_leds] words, for
    [0 <= k <= num_leds]: [rotate_right(k)] is [rotate_left(num_leds - k)],
    and [rotate_right(k)] followed by [rotate_left(k)] gives the object
    back. *)
Theorem rotate_right_as_left (s : t) (k : Z) :
  sized s ->
  0 <= k <= num_leds s ->
  rotate_right (Some k) s = rotate_left (Some (num_leds s - k)) s /\
  (_ <- rotate_right (Some k) ;; rotate_left (Some k)) s = (inr tt, s).
Proof.
  unfold sized. intros Hs Hk. unfold bind.
  rewrite !rotate_right_rot, !rotate_left_rot.
  cbn [pixels with_pixels mode sm shift num_leds delay brightnessvalue].
  split.
  - f_equal. f_equal. apply rot_mod_eq; rewrite ?Hs; try lia.
    replace (num_leds s - k) with (- k + 1 * num_leds s) by lia.
    symmetry. destruct (Z.eq_dec (num_leds s) 0) as [E | NE].
    + rewrite E. f_equal. lia.
    + apply Z.mod_add. exact NE.
  - rewrite (rot_rot (pixels s) (- k) k 0)
      by (rewrite ?Hs; try lia; f_equal; lia).
    rewrite rot_0. destruct s; reflexivity.
Qed.

Lemma rotate_right_as_left_witness :
  rotate_right (Some 1) grb4_1234 = rotate_left (Some 3) grb4_1234 /\
  (_ <- rotate_right (Some 1) ;; rotate_left (Some 1)) grb4_1234
    = (inr tt, grb4_1234).
Proof.
  apply (rotate_right_as_left grb4_1234 1 eq_refl). cbn. lia.
Defined.

(** X6.  On a buffer whose array has [num_leds] words, two rotations in a
    row by offsets in [-num_leds, num_leds] are one rotation: left by [a]
    then left by [b] is left by [(a + b) mod num_leds], right then right is
    right by [(a + b) mod num_leds], and left by [a] then right by [b] is
    left by [(a - b) mod num_leds]. *)
Theorem rotate_compose (s : t) (a b : Z) :
  sized s ->
  - num_leds s <= a <= num_leds s ->
  - num_leds s <= b <= num_leds s ->
  (_ <- rotate_left (Some a) ;; rotate_left (Some b)) s
    = rotate_left (Some ((a + b) mod num_leds s)) s /\
  (_ <- rotate_right (Some a) ;; rotate_right (Some b)) s
    = rotate_right (Some ((a + b) mod num_leds s)) s /\
  (_ <- rotate_left (Some a) ;; rotate_right (Some b)) s
    = rotate_left (Some ((a - b) mod num_leds s)) s.
Proof.
  unfold sized. intros Hs Ha Hb. unfold bind.
  rewrite !rotate_right_rot, !rotate_left_rot, ?rotate_right_rot.
  rewrite !with_pixels_twice. cbn [pixels with_pixels].
  set (n := num_leds s) in *.
  destruct (Z.eq_dec n 0) as [E | NE].
  { assert (a = 0) by lia. assert (b = 0) by lia. subst a b.
    rewrite E. change ((0 + 0) mod 0) with 0. change ((0 - 0) mod 0) with 0.
    change (- 0) with 0. rewrite !rot_0. repeat split; reflexivity. }
  assert (M : forall x, - n <= x mod n <= n /\ - n <= - (x mod n) <= n).
  { intros x. pose proof (Z.mod_pos_bound x n ltac:(lia)). lia. }
  split; [| split]; f_equal; f_equal; apply rot_rot; rewrite ?Hs; fold n;
    try lia; try apply M.
  - apply Z.mod_mod; exact NE.
  - rewrite opp_mod_mod by exact NE. f_equal. lia.
  - apply Z.mod_mod; exact NE.
Qed.

Lemma rotate_compose_witness :
  (_ <- rotate_left (Some 3) ;; rotate_left (Some 2)) grb4_1234
    = rotate_left (Some 1) grb4_1234 /\
  (_ <- rotate_right (Some 3) ;; rotate_right (Some 2)) grb4_1234
    = rotate_right (Some 1) grb4_1234 /\
  (_ <- rotate_left (Some 3) ;; rotate_right (Some 2)) grb4_1234
    = rotate_left (Some 1) grb4_1234.
Proof.
  apply (rotate_compose grb4_1234 3 2 eq_refl); cbn; lia.
Defined.

(** X7.  On a buffer whose array has [num_leds] words, [j] calls of
    [rotate_left(1)] in a row, for [0 <= j <= num_leds], are one call of
    [rotate_left(j)], and the same holds for [rotate_right]; after [num_leds]
    calls the object is as it was at the start. *)
Theorem rotate_steps (s : t) (j : Z) :
  sized s ->
  0 <= j <= num_leds s ->
  for_each (range 0 j) (fun _ => rotate_left (Some 1)) s
    = rotate_left (Some j) s /\
  for_each (range 0 j) (fun _ => rotate_right (Some 1)) s
    = rotate_right (Some j) s /\
  for_each (range 0 (num_leds s)) (fun _ => rotate_left (Some 1)) s
    = (inr tt, s) /\
  for_each (range 0 (num_leds s)) (fun _ => rotate_right (Some 1)) s
    = (inr tt, s).
Proof.
  unfold sized. intros Hs Hj.
  rewrite !for_each_rotate_left, !for_each_rotate_right.
  rewrite !rotate_left_rot, !rotate_right_rot.
  unfold range. rewrite !Z.sub_0_r, !length_seqZ.
  rewrite !rot_steps by (rewrite ?Z2Nat.id; lia).
  rewrite !Z2Nat.id by lia.
  replace (1 * j) with j by lia. replace (-1 * j) with (- j) by lia.
  split; [reflexivity |]. split; [reflexivity |].
  assert (E : forall x, x = num_leds s \/ x = - num_leds s ->
                rot (pixels s) x = pixels s).
  { intros x Hx. rewrite <- (rot_0 (pixels s)) at 2.
    apply rot_mod_eq; rewrite ?Hs; try lia.
    destruct (Z.eq_dec (num_leds s) 0) as [Z0 | NZ].
    - destruct Hx as [-> | ->]; rewrite Z0; reflexivity.
    - destruct Hx as [-> | ->].
      + rewrite Z.mod_same by exact NZ. reflexivity.
      + replace (- num_leds s) with (-1 * num_leds s) by lia.
        rewrite Z.mod_mul by exact NZ. reflexivity. }
  rewrite !E by lia. rewrite with_pixels_id. split; reflexivity.
Qed.

Lemma rotate_steps_witness :
  for_each (range 0 3) (fun _ => rotate_right (Some 1)) grb4_1234
    = rotate_right (Some 3) grb4_1234 /\
  for_each (range 0 4) (fun _ => rotate_right (Some 1)) grb4_1234
    = (inr tt, grb4_1234).
Proof.
  split.
  - apply (proj1 (proj2 (rotate_steps grb4_1234 3 eq_refl ltac:(cbn; lia)))).
  - apply (proj2 (proj2 (proj2 (rotate_steps grb4_1234 3 eq_refl
                                  ltac:(cbn; lia))))).
Defined.

(** ** Writes of single pixels *)

Section Writes.

Lemma round_inject (z : Z) : round (inject_Z z) = z.
Proof.
  pose proof (round_ge (inject_Z z) z (Qle_refl _)).
  pose proof (round_le (inject_Z z) z (Qle_refl _)).
  lia.
Qed.




Lemma scale_255 (c : Z) : scale 255 c = c.
Proof.
  unfold scale. rewrite <- (round_inject c) at 2. apply round_comp.
  unfold Qeq, Qdiv, Qmult, Qinv, inject_Z. simpl. lia.
Qed.

Lemma scale_0 (b : Z) : scale b 0 = 0.
Proof.
  unfold scale. rewrite <- (round_inject 0) at 2. apply round_comp.
  unfold Qeq, Qdiv, Qmult, Qinv, inject_Z. simpl. lia.
Qed.

End Writes.

(** X8.  On a well-formed buffer, with colours of three or four channels in
    [0,255] and indexes in [0, num_leds): a second [set_pixel] at the same
    index replaces the first, so the last write wins; and two writes at
    different indexes give the same object in either order. *)
Theorem set_pixel_writes (s : t) (i j : Z) (c1 c2 : list Z) :
  well_formed s ->
  pixel_colour c1 ->
  pixel_colour c2 ->
  0 <= i < num_leds s ->
  0 <= j < num_leds s ->
  (_ <- set_pixel i c1 ;; set_pixel i c2) s = set_pixel i c2 s /\
  (i <> j ->
     (_ <- set_pixel i c1 ;; set_pixel j c2) s
       = (_ <- set_pixel j c2 ;; set_pixel i c1) s).
Proof.
  intros Hwf H1 H2 Hi Hj.
  assert (Hs : Z.of_nat (length (pixels s)) = num_leds s) by apply Hwf.
  assert (W : forall k c c', 0 <= k < num_leds s -> pixel_colour c ->
            well_formed (with_pixels (<[Z.to_nat k := word s c']> (pixels s)) s)).
  { intros. apply well_formed_with_pixels; [apply length_insert | exact Hwf]. }
  unfold bind.
  rewrite !(set_pixel_ok _ _ s) by assumption.
  rewrite !subscript_in by lia.
  rewrite !set_pixel_ok by (try assumption; eapply W; eassumption).
  cbn [pixels with_pixels]. rewrite !length_insert, !subscript_in by lia.
  rewrite !word_with_pixels, !with_pixels_twice.
  split.
  - rewrite list_insert_insert_eq. reflexivity.
  - intros Hne. rewrite list_insert_insert_ne by lia. reflexivity.
Qed.

Lemma set_pixel_writes_witness :
  (_ <- set_pixel 1 [255; 0; 0] ;; set_pixel 1 [0; 0; 255]) grb4
    = set_pixel 1 [0; 0; 255] grb4 /\
  (_ <- set_pixel 1 [255; 0; 0] ;; set_pixel 3 [0; 0; 255]) grb4
    = (_ <- set_pixel 3 [0; 0; 255] ;; set_pixel 1 [255; 0; 0]) grb4.
Proof.
  assert (H1 : pixel_colour [255; 0; 0])
    by (split; [left; reflexivity | repeat constructor; lia]).
  assert (H2 : pixel_colour [0; 0; 255])
    by (split; [left; reflexivity | repeat constructor; lia]).
  split.
  - apply (proj1 (set_pixel_writes grb4 1 3 _ _ grb4_well_formed H1 H2
                    ltac:(cbn; lia) ltac:(cbn; lia))).
  - apply (proj2 (set_pixel_writes grb4 1 3 _ _ grb4_well_formed H1 H2
                    ltac:(cbn; lia) ltac:(cbn; lia))). lia.
Defined.



(** X10.  On a well-formed buffer at brightness 255, the brightness of a new
    buffer, [set_pixel] at an index in [0, num_leds) with a colour of three or
    four channels in [0,255] stores a word whose lanes of R, G and B hold the
    channels themselves, and whose lane of W holds the fourth channel when the
    mode has W and the colour four channels. *)
Theorem set_pixel_full_brightness (s : t) (idx : Z) (c : list Z) :
  well_formed s ->
  brightnessvalue s = 255 ->
  pixel_colour c ->
  0 <= idx < num_leds s ->
  exists w,
    set_pixel idx c s
      = (inr tt, with_pixels (<[Z.to_nat idx := w]> (pixels s)) s) /\
    lane w (shift_R (shift s)) = chan c 0 /\
    lane w (shift_G (shift s)) = chan c 1 /\
    lane w (shift_B (shift s)) = chan c 2 /\
    ("W"%char ∈ mode s -> length c = 4%nat ->
       lane w (shift_W (shift s)) = chan c 3).
Proof.
  intros Hwf Hb Hc Hi.
  assert (Hs : Z.of_nat (length (pixels s)) = num_leds s) by apply Hwf.
  destruct Hwf as (Hsz & Ht & Hbr).
  pose proof (word_lanes s c Ht Hbr (proj2 Hc)) as (_ & HR & HG & HB & HW).
  rewrite Hb in HR, HG, HB, HW.
  rewrite <- !scale_eq, !scale_255 in HR, HG, HB.
  exists (word s c).
  split.
  - rewrite (set_pixel_ok idx c s (conj Hsz (conj Ht Hbr)) Hc).
    rewrite subscript_in by lia. reflexivity.
  - repeat split; try assumption.
    intros Hw H4. rewrite (bool_decide_eq_true_2 _ Hw) in HW.
    rewrite (bool_decide_eq_true_2 _ H4) in HW.
    rewrite <- scale_eq, scale_255 in HW. exact HW.
Qed.

Lemma set_pixel_full_brightness_witness :
  exists w,
    set_pixel 2 [12; 200; 7] grb4
      = (inr tt, with_pixels (<[2%nat := w]> [0; 0; 0; 0]) grb4) /\
    lane w 8 = 12 /\ lane w 16 = 200 /\ lane w 0 = 7.
Proof.
  assert (Hc : pixel_colour [12; 200; 7])
    by (split; [left; reflexivity | repeat constructor; lia]).
  destruct (set_pixel_full_brightness grb4 2 [12; 200; 7] grb4_well_formed
              eq_refl Hc ltac:(cbn; lia))
    as (w & E & HR & HG & HB & _).
  exists w. repeat split; assumption.
Defined.

(** X11.  A buffer made by [__init__] from a valid mode and a length that is
    not negative is well formed: the array has [num_leds] words, the lanes of
    the shift table are distinct multiples of 8 and the brightness is in
    [1,255].  Every method keeps a well-formed buffer well formed, whatever
    its arguments and whether it returns or raises: no method resizes the
    array or touches the mode or the shift table. *)
Theorem methods_keep_well_formed :
  (forall n sid pin m d s,
     valid_mode m -> 0 <= n -> __init__ n sid pin m d = inr s ->
     well_formed s) /\
  (forall s, well_formed s ->
     (forall arg, well_formed (snd (brightness arg s))) /\
     (forall i c, well_formed (snd (set_pixel i c s))) /\
     (forall a b c, well_formed (snd (set_pixel_line a b c s))) /\
     (forall a b c1 c2, well_formed (snd (set_pixel_line_gradient a b c1 c2 s))) /\
     (forall cl a b rv rb, well_formed (snd (segment_gradient cl a b rv rb s))) /\
     (forall c, well_formed (snd (fill c s))) /\
     (forall k, well_formed (snd (rotate_left k s))) /\
     (forall k, well_formed (snd (rotate_right k s))) /\
     well_formed (snd (show s))).
Proof.
  split; [exact init_well_formed |].
  intros s Hs.
  split; [intros; apply frame_well_formed; [apply frame_brightness | exact Hs] |].
  split; [intros; apply frame_well_formed; [apply frame_set_pixel | exact Hs] |].
  split; [intros; apply frame_well_formed;
          [apply frame_set_pixel_line | exact Hs] |].
  split; [intros; apply frame_well_formed;
          [apply frame_set_pixel_line_gradient | exact Hs] |].
  split; [intros; apply frame_well_formed;
          [apply frame_segment_gradient | exact Hs] |].
  split; [intros; apply frame_well_formed; [apply frame_fill | exact Hs] |].
  split; [intros; apply frame_well_formed; [apply frame_rotate_left | exact Hs] |].
  split; [intros; apply frame_well_formed; [apply frame_rotate_right | exact Hs] |].
  apply frame_well_formed; [apply frame_show | exact Hs].
Qed.

Lemma methods_keep_well_formed_witness :
  well_formed grb4 /\
  well_formed (snd (set_pixel 9 [1; 2; 3] grb4)) /\
  well_formed (snd (segment_gradient [r1; y2; g1; b5] 0 15 false false grb4)).
Proof.
  assert (Hm : valid_mode "GRB").
  { left. apply (proj1 (permutations_Permutation _ _)). vm_compute. set_solver. }
  assert (H : well_formed grb4).
  { apply (proj1 methods_keep_well_formed 4 0 22 "GRB" (1 # 10000) grb4 Hm);
      [lia | vm_compute; reflexivity]. }
  split; [exact H |]. split.
  - apply (proj2 methods_keep_well_formed grb4 H).
  - apply (proj2 methods_keep_well_formed grb4 H).
Defined.

(** ** The gradient along a line *)

Section Gradient.

Lemma lerp_value_same (x : Z) (f : Q) : lerp_value x x f = x.
Proof.
  unfold lerp_value. transitivity (round (inject_Z x)); [| apply round_inject].
  apply round_comp. rewrite Z.sub_diag. change (inject_Z 0) with 0%Q. ring.
Qed.




Lemma truediv_nonzero (i n : Z) :
  n <> 0 -> truediv (inject_Z i) (inject_Z n) = inr (inject_Z i / inject_Z n)%Q.
Proof.
  intros Hn. unfold truediv.
  destruct (Qeq_bool (inject_Z n) 0) eqn:E; [| reflexivity].
  apply Qeq_bool_iff in E. unfold Qeq, inject_Z in E. simpl in E. lia.
Qed.


Lemma getitem_chan (c : list Z) (k : nat) :
  (k < length c)%nat -> getitem c k = inr (chan c k).
Proof.
  intros H. unfold getitem, chan.
  destruct (c !! k) eqn:E; [reflexivity |].
  apply lookup_ge_None_1 in E. lia.
Qed.

Lemma lerp_chan (a b : list Z) (k : nat) (f : Q) :
  (k < length a)%nat -> (k < length b)%nat ->
  lerp a b k f = inr (lerp_value (chan a k) (chan b k) f).
Proof.
  intros Ha Hb. unfold lerp, lerp_value.
  rewrite (getitem_chan a k Ha), (getitem_chan b k Hb). reflexivity.
Qed.

(** [blend] returns [mix] and leaves the object alone. *)
Lemma blend_mix (a b : list Z) (f : Q) (s : t) :
  pixel_colour a -> pixel_colour b -> length a = length b ->
  blend a b f s = (inr (mix (writes_white s a) a b f), s).
Proof.
  intros [La _] [Lb _] E.
  unfold blend, has_white, bind, gets, lift, ret, mix, writes_white.
  rewrite !lerp_chan by lia. cbv iota beta.
  destruct (bool_decide (length a = 4%nat) && bool_decide ("W"%char ∈ mode s))
    eqn:W; [| reflexivity].
  apply andb_prop in W as [W _]. apply bool_decide_eq_true_1 in W.
  rewrite lerp_chan by lia. reflexivity.
Qed.


(** The word of the first colour is the word of the mix at fraction 0, the
    word of the second the word of the mix at fraction 1. *)
Lemma word_mix_same (s : t) (a : list Z) (f : Q) :
  pixel_colour a -> word s (mix (writes_white s a) a a f) = word s a.
Proof.
  intros [La _]. unfold mix. rewrite !lerp_value_same.
  unfold writes_white.
  destruct (bool_decide (length a = 4%nat)) eqn:L4;
    destruct (bool_decide ("W"%char ∈ mode s)) eqn:W; cbn [andb].
  - apply bool_decide_eq_true_1 in L4.
    destruct a as [| a0 [| a1 [| a2 [| a3 [| ? ?]]]]]; try discriminate L4.
    reflexivity.
  - apply bool_decide_eq_false_1 in W.
    rewrite <- (word_ignores_fourth s a W). f_equal.
    destruct a as [| a0 [| a1 [| a2 rest]]]; cbn in La; try lia. reflexivity.
  - apply bool_decide_eq_false_1 in L4.
    destruct a as [| a0 [| a1 [| a2 [| a3 rest]]]]; cbn in La, L4; try lia.
    reflexivity.
  - apply bool_decide_eq_false_1 in L4.
    destruct a as [| a0 [| a1 [| a2 [| a3 rest]]]]; cbn in La, L4; try lia.
    reflexivity.
Qed.



(** Two loops whose bodies agree on well-formed buffers agree on them. *)
Lemma for_each_agree {A : Type} (xs : list A) (body1 body2 : A -> M unit) :
  (forall x, frame (body2 x)) ->
  (forall x s, well_formed s -> body1 x s = body2 x s) ->
  forall s, well_formed s -> for_each xs body1 s = for_each xs body2 s.
Proof.
  intros Hf Hb. induction xs as [| x xs IH]; intros s Hs; [reflexivity |].
  cbn [for_each]. unfold bind. rewrite (Hb x s Hs).
  pose proof (frame_well_formed (body2 x) s (Hf x) Hs) as Hs'.
  destruct (body2 x s) as [[e | []] s1]; [reflexivity |].
  apply IH. exact Hs'.
Qed.

Lemma for_each_shift (off : Z) (a k : Z) (g : Z -> M unit) (s : t) :
  for_each (seqZ a k) (fun i => g (off + i)) s
    = for_each (seqZ (off + a) k) g s.
Proof.
  rewrite <- fmap_add_seqZ.
  generalize (seqZ a k). intros xs. revert s.
  induction xs as [| x xs IH]; intros s; [reflexivity |].
  cbn [for_each fmap list_fmap]. unfold bind.
  destruct (g (off + x) s) as [[e | []] s1]; [reflexivity | apply IH].
Qed.

(** On a well-formed buffer, two colours with the same word are written
    alike. *)
Lemma set_pixel_same_word (i : Z) (c c' : list Z) (s : t) :
  well_formed s -> pixel_colour c -> pixel_colour c' ->
  word s c = word s c' -> set_pixel i c s = set_pixel i c' s.
Proof.
  intros Hs Hc Hc' E. rewrite !set_pixel_ok by assumption.
  rewrite E. reflexivity.
Qed.

End Gradient.

(** X12.  [set_pixel_line_gradient] with the same colour at both ends, a
    colour of three or four channels in [0,255], on a well-formed buffer:
    when the two pixels differ, the call does what [set_pixel_line] does
    from the lower to the higher of them, with the same outcome and the same
    writes also where that one raises; when the two pixels are the same, the
    call writes nothing, where [set_pixel_line] writes that pixel. *)
Theorem gradient_same_colour (s : t) (pixel1 pixel2 : Z) (a : list Z) :
  well_formed s ->
  pixel_colour a ->
  (pixel1 <> pixel2 ->
     set_pixel_line_gradient pixel1 pixel2 a a s
       = set_pixel_line (Z.min pixel1 pixel2) (Z.max pixel1 pixel2) a s) /\
  set_pixel_line_gradient pixel1 pixel1 a a s = (inr tt, s) /\
  (0 <= pixel1 < num_leds s ->
     set_pixel_line pixel1 pixel1 a s
       = (inr tt,
          with_pixels (<[Z.to_nat pixel1 := word s a]> (pixels s)) s)).
Proof.
  intros Hwf Ha.
  assert (Hs : Z.of_nat (length (pixels s)) = num_leds s) by apply Hwf.
  split; [| split].
  - intros Hne. unfold set_pixel_line_gradient, set_pixel_line, range.
    destruct (Z.eqb_spec (pixel2 - pixel1) 0) as [E | _]; [lia |].
    set (l := Z.min pixel1 pixel2). set (r := Z.max pixel1 pixel2).
    rewrite Z.sub_0_r.
    rewrite (for_each_agree _ _ (fun i => set_pixel (l + i) a)).
    + rewrite (for_each_shift l 0 (r - l + 1) (fun i => set_pixel i a)).
      do 2 f_equal; lia.
    + intros x. apply frame_set_pixel.
    + intros x s' Hs'. unfold bind.
      rewrite truediv_nonzero by (subst l r; lia). unfold lift at 1.
      rewrite (blend_mix a a _ s' Ha Ha eq_refl).
      assert (M1 : pixel_colour
                (mix (writes_white s' a) a a (inject_Z x / inject_Z (r - l)))).
      { unfold mix. rewrite !lerp_value_same.
        destruct Ha as [La Fa].
        destruct (writes_white s' a);
          (split; [cbn; lia | repeat constructor; apply chan_byte; exact Fa]). }
      apply set_pixel_same_word; try assumption.
      apply word_mix_same. exact Ha.
    + exact Hwf.
  - unfold set_pixel_line_gradient. rewrite Z.sub_diag. reflexivity.
  - intros Hi. unfold set_pixel_line, range.
    replace (pixel1 + 1 - pixel1) with 1 by lia.
    change (seqZ pixel1 1) with [pixel1]. cbn [for_each]. unfold bind.
    rewrite (set_pixel_ok pixel1 a s Hwf Ha), subscript_in by lia.
    reflexivity.
Qed.

Lemma gradient_same_colour_witness :
  set_pixel_line_gradient 3 1 [255; 0; 0] [255; 0; 0] grb4
    = set_pixel_line 1 3 [255; 0; 0] grb4 /\
  set_pixel_line_gradient 2 2 [255; 0; 0] [255; 0; 0] grb4 = (inr tt, grb4) /\
  set_pixel_line 2 2 [255; 0; 0] grb4
    = (inr tt, with_pixels [0; 0; 65280; 0] grb4).
Proof.
  assert (Hc : pixel_colour [255; 0; 0])
    by (split; [left; reflexivity | repeat constructor; lia]).
  destruct (gradient_same_colour grb4 3 1 [255; 0; 0] grb4_well_formed Hc)
    as (H1 & _ & _).
  destruct (gradient_same_colour grb4 2 2 [255; 0; 0] grb4_well_formed Hc)
    as (_ & H2 & H3).
  split; [apply H1; lia |]. split; [exact H2 |].
  apply H3. cbn. lia.
Defined.



(** ** The state machine on the wire *)

Section Wire.

Lemma run_add (a b : nat) (p : Pio.program) (st : Pio.state) :
  Pio.run (a + b) p st =
    (fst (Pio.run a p st) ++ fst (Pio.run b p (snd (Pio.run a p st))),
     snd (Pio.run b p (snd (Pio.run a p st)))).
Proof.
  revert st. induction a as [| a IH]; intros st.
  - cbn. destruct (Pio.run b p st); reflexivity.
  - cbn [Nat.add Pio.run].
    destruct (Pio.step p st) as [[st' held] |] eqn:E.
    + rewrite IH. reflexivity.
    + cbn [fst snd app]. destruct b as [| b]; [reflexivity |].
      cbn [Pio.run]. rewrite E. reflexivity.
Qed.

Lemma program_of_bit_loop (pg : pio_program) :
  program_of pg = bit_loop (Pio.pull_thresh (program_of pg)).
Proof. destruct pg; reflexivity. Qed.

Lemma top_bit (o : Z) :
  0 <= o < 2 ^ 32 -> Z.shiftr o 31 = if Z.testbit o 31 then 1 else 0.
Proof.
  intros Ho. rewrite Z.shiftr_div_pow2 by lia.
  pose proof (Z.testbit_spec' o 31 ltac:(lia)) as T.
  change (2 ^ 31) with 2147483648 in *. change (2 ^ 32) with 4294967296 in *.
  assert (B : 0 <= o / 2147483648 < 2)
    by (split; [apply Z.div_pos | apply Z.div_lt_upper_bound]; lia).
  rewrite Z.mod_small in T by exact B.
  destruct (Z.testbit o 31); cbn in T; lia.
Qed.

Lemma mask32_range (v : Z) : 0 <= Z.land v 4294967295 < 2 ^ 32.
Proof.
  change 4294967295 with (Z.ones 32). rewrite Z.land_ones by lia.
  apply Z.mod_pos_bound. reflexivity.
Qed.

(** One bit: three instructions, from the head of the loop back to it. *)
Lemma run_bit (th : Z) (x o c : Z) (f : list Z) :
  0 <= o < 2 ^ 32 -> c < th ->
  Pio.run 3 (bit_loop th) (Pio.mkState 0 x o c f) =
    (bit_wave (Z.testbit o 31),
     Pio.mkState 0 (Z.shiftr o 31) (Z.land (Z.shiftl o 1) 4294967295)
                 (c + 1) f).
Proof.
  intros Ho Hc. cbn [Pio.run]. unfold Pio.step at 1.
  cbn [Pio.code bit_loop Pio.pc lookup list_lookup Pio.operation Pio.side
       Pio.delay].
  unfold Pio.refill. cbn [Pio.count Pio.pull_thresh bit_loop].
  destruct (Z.ltb_spec c th) as [_ | ?]; [| lia].
  cbn [Pio.pc Pio.osr Pio.count Pio.fifo Pio.x Pio.advance Pio.wrap
       Pio.wrap_target bit_loop Nat.eqb fst snd].
  change (32 - 1) with 31.
  unfold Pio.step at 1.
  cbn [Pio.code bit_loop Pio.pc lookup list_lookup Pio.operation Pio.side
       Pio.delay Pio.x Pio.osr Pio.count Pio.fifo Pio.advance Pio.wrap
       Pio.wrap_target Nat.eqb fst snd].
  rewrite (top_bit o Ho).
  destruct (Z.testbit o 31); cbn [Z.eqb];
    unfold Pio.step;
    cbn [Pio.code bit_loop Pio.pc lookup list_lookup Pio.operation Pio.side
         Pio.delay Pio.x Pio.osr Pio.count Pio.fifo Pio.advance Pio.wrap
         Pio.wrap_target Nat.eqb fst snd];
    reflexivity.
Qed.

Lemma testbit_shifted (w k : Z) :
  0 <= k <= 31 ->
  Z.testbit (Z.land (Z.shiftl w k) 4294967295) 31 = Z.testbit w (31 - k).
Proof.
  intros Hk. rewrite Z.land_spec, Z.shiftl_spec by lia.
  change (Z.testbit 4294967295 31) with true. apply andb_true_r.
Qed.

Lemma shifted_step (w k : Z) :
  0 <= k ->
  Z.land (Z.shiftl (Z.land (Z.shiftl w k) 4294967295) 1) 4294967295
    = Z.land (Z.shiftl w (k + 1)) 4294967295.
Proof.
  intros Hk. change 4294967295 with (Z.ones 32).
  rewrite !Z.land_ones by lia. rewrite !Z.shiftl_mul_pow2 by lia.
  rewrite Z.pow_add_r by lia. change (2 ^ 1) with 2.
  rewrite Z.mul_mod_idemp_l by discriminate. f_equal. lia.
Qed.

(** The bits from [k] on of a word in the output shift register. *)
Lemma run_bits (th : Z) (w : Z) (f : list Z) (n : nat) :
  forall (k x : Z),
    0 <= k -> k + Z.of_nat n = th -> th <= 32 ->
    exists x',
      Pio.run (3 * n) (bit_loop th)
              (Pio.mkState 0 x (Z.land (Z.shiftl w k) 4294967295) k f) =
        (concat (bit_wave <$>
                   ((fun i => Z.testbit w (31 - i)) <$> seqZ k (Z.of_nat n))),
         Pio.mkState 0 x' (Z.land (Z.shiftl w th) 4294967295) th f).
Proof.
  induction n as [| n IH]; intros k x Hk Hn Hth.
  - exists x. cbn. replace k with th by lia. reflexivity.
  - replace (3 * S n)%nat with (3 + 3 * n)%nat by lia.
    rewrite run_add. rewrite run_bit by (try apply mask32_range; lia).
    cbn [fst snd]. rewrite testbit_shifted by lia. rewrite shifted_step by lia.
    destruct (IH (k + 1) (Z.shiftr (Z.land (Z.shiftl w k) 4294967295) 31))
      as [x' E]; [lia | lia | lia |].
    rewrite E. exists x'. cbn [fst snd].
    rewrite (seqZ_cons k (Z.of_nat (S n))) by lia.
    replace (Z.pred (Z.of_nat (S n))) with (Z.of_nat n) by lia.
    replace (Z.succ k) with (k + 1) by lia.
    cbn [fmap list_fmap concat]. reflexivity.
Qed.

(** One word of the FIFO, from a stall or from the end of the word before. *)
Lemma run_word (th : Z) (w x o c : Z) (f : list Z) :
  0 < th <= 32 -> th <= c -> 0 <= w < 2 ^ 32 ->
  exists x' o',
    Pio.run (3 * Z.to_nat th) (bit_loop th) (Pio.mkState 0 x o c (w :: f)) =
      (concat (bit_wave <$> wire_bits th w), Pio.mkState 0 x' o' th f).
Proof.
  intros Hth Hc Hw.
  assert (R : Pio.run (3 * Z.to_nat th) (bit_loop th)
                (Pio.mkState 0 x o c (w :: f)) =
              Pio.run (3 * Z.to_nat th) (bit_loop th)
                (Pio.mkState 0 x w 0 f)).
  { destruct (Z.to_nat th) as [| n] eqn:En; [lia |].
    replace (3 * S n)%nat with (S (2 + 3 * n)) by lia.
    cbn [Pio.run]. unfold Pio.step.
    cbn [Pio.code bit_loop Pio.pc lookup list_lookup Pio.operation].
    unfold Pio.refill. cbn [Pio.count Pio.pull_thresh bit_loop Pio.fifo].
    destruct (Z.ltb_spec c th) as [? | _]; [lia |].
    destruct (Z.ltb_spec 0 th) as [_ | ?]; [| lia].
    reflexivity. }
  rewrite R.
  destruct (run_bits th w f (Z.to_nat th) 0 x) as [x' E]; [lia | lia | lia |].
  rewrite Z.shiftl_0_r in E.
  assert (M : Z.land w 4294967295 = w).
  { change 4294967295 with (Z.ones 32). rewrite Z.land_ones by lia.
    apply Z.mod_small. exact Hw. }
  rewrite M, Z2Nat.id in E by lia.
  exists x'. eexists. exact E.
Qed.

Lemma stalled (th x o c : Z) :
  th <= c -> Pio.step (bit_loop th) (Pio.mkState 0 x o c []) = None.
Proof.
  intros Hc. unfold Pio.step.
  cbn [Pio.code bit_loop Pio.pc lookup list_lookup Pio.operation].
  unfold Pio.refill. cbn [Pio.count Pio.pull_thresh bit_loop Pio.fifo].
  destruct (Z.ltb_spec c th); [lia | reflexivity].
Qed.

Lemma run_stalled (fuel : nat) (p : Pio.program) (st : Pio.state) :
  Pio.step p st = None -> Pio.run fuel p st = ([], st).
Proof. intros E. destruct fuel; cbn [Pio.run]; [| rewrite E]; reflexivity. Qed.

(** The words of the FIFO one after the other, up to the stall on the empty
    FIFO. *)
Lemma run_words (th : Z) (ws : list Z) :
  0 < th <= 32 ->
  Forall (fun w => 0 <= w < 2 ^ 32) ws ->
  forall x o c,
    th <= c ->
    exists x' o' c',
      th <= c' /\
      Pio.run (3 * Z.to_nat th * length ws) (bit_loop th)
              (Pio.mkState 0 x o c ws) =
        (concat (bit_wave <$> concat (wire_bits th <$> ws)),
         Pio.mkState 0 x' o' c' []).
Proof.
  intros Hth Hws. induction Hws as [| w ws Hw Hws IH]; intros x o c Hc.
  - exists x, o, c. split; [exact Hc |].
    rewrite Nat.mul_0_r. reflexivity.
  - cbn [length].
    replace (3 * Z.to_nat th * S (length ws))%nat
      with (3 * Z.to_nat th + 3 * Z.to_nat th * length ws)%nat by lia.
    rewrite run_add.
    destruct (run_word th w x o c ws Hth Hc Hw) as (x1 & o1 & E1).
    rewrite E1. cbn [fst snd].
    destruct (IH x1 o1 th) as (x2 & o2 & c2 & Hc2 & E2); [lia |].
    rewrite E2. exists x2, o2, c2. split; [exact Hc2 |].
    cbn [fst snd fmap list_fmap concat]. rewrite fmap_app, concat_app.
    reflexivity.
Qed.

(** With fuel for every bit, and any more. *)
Lemma run_fifo (pg : pio_program) (ws : list Z) (fuel : nat) :
  Forall (fun w => 0 <= w < 2 ^ 32) ws ->
  (3 * Z.to_nat (Pio.pull_thresh (program_of pg)) * length ws <= fuel)%nat ->
  exists x o c,
    Pio.pull_thresh (program_of pg) <= c /\
    Pio.run fuel (program_of pg) (Pio.start ws) =
      (concat (bit_wave <$>
                 concat (wire_bits (Pio.pull_thresh (program_of pg)) <$> ws)),
       Pio.mkState 0 x o c []).
Proof.
  intros Hws Hf.
  set (th := Pio.pull_thresh (program_of pg)) in *.
  replace (program_of pg) with (bit_loop th)
    by (symmetry; apply program_of_bit_loop).
  assert (Hth : 0 < th <= 32) by (subst th; destruct pg; cbn; lia).
  destruct (run_words th ws Hth Hws 0 0 32) as (x & o & c & Hc & E); [lia |].
  exists x, o, c. split; [exact Hc |].
  replace fuel
    with (3 * Z.to_nat th * length ws
          + (fuel - 3 * Z.to_nat th * length ws))%nat by lia.
  rewrite run_add. unfold Pio.start. rewrite E. cbn [fst snd].
  rewrite (run_stalled _ _ _ (stalled th x o c Hc)).
  cbn [fst snd]. rewrite app_nil_r. reflexivity.
Qed.

Lemma pushed_range (v k : Z) : 0 <= Pio.pushed v k < 2 ^ 32.
Proof. apply mask32_range. Qed.

Lemma fifo_of_range (m : StateMachine) :
  Forall (fun w => 0 <= w < 2 ^ 32) (fifo_of m).
Proof.
  unfold fifo_of. apply Forall_fmap, Forall_forall. intros wc _.
  apply pushed_range.
Qed.

Lemma cycles_app (a b : list (Z * Z)) : cycles (a ++ b) = cycles a + cycles b.
Proof.
  unfold cycles. induction a as [| h a IH]; cbn [foldr app]; [reflexivity |].
  rewrite IH. lia.
Qed.

Lemma high_cycles_app (a b : list (Z * Z)) :
  high_cycles (a ++ b) = high_cycles a + high_cycles b.
Proof.
  unfold high_cycles.
  induction a as [| h a IH]; cbn [foldr app]; [reflexivity |].
  rewrite IH. lia.
Qed.

Lemma waves_cycles (bits : list bool) :
  cycles (concat (bit_wave <$> bits)) = 10 * Z.of_nat (length bits) /\
  high_cycles (concat (bit_wave <$> bits)) =
    2 * Z.of_nat (length bits) + 5 * ones bits.
Proof.
  induction bits as [| b bits [IH1 IH2]]; [split; reflexivity |].
  cbn [fmap list_fmap concat]. rewrite cycles_app, high_cycles_app, IH1, IH2.
  unfold ones. cbn [length foldr]. fold (ones bits).
  rewrite Nat2Z.inj_succ.
  assert (C : cycles (bit_wave b) = 10) by (destruct b; reflexivity).
  assert (H : high_cycles (bit_wave b) = if b then 7 else 2)
    by (destruct b; reflexivity).
  rewrite C, H. destruct b; lia.
Qed.

Lemma wire_bits_length (th w : Z) :
  length (wire_bits th w) = Z.to_nat th.
Proof. unfold wire_bits. rewrite length_fmap, length_seqZ. reflexivity. Qed.

Lemma frame_bits_length (th : Z) (ws : list Z) :
  Z.of_nat (length (concat (wire_bits th <$> ws))) =
    Z.of_nat (Z.to_nat th) * Z.of_nat (length ws).
Proof.
  induction ws as [| w ws IH]; cbn [fmap list_fmap concat length]; [lia |].
  rewrite length_app, wire_bits_length. lia.
Qed.

(** The bits of a word pushed with the shift that goes with the threshold:
    the lowest [th] bits of the value, the highest first. *)
Lemma wire_bits_pushed (th cut w : Z) :
  0 <= cut -> th + cut = 32 ->
  wire_bits th (Pio.pushed w cut) =
    (fun i => Z.testbit w (th - 1 - i)) <$> seqZ 0 th.
Proof.
  intros Hcut Hth. unfold wire_bits, Pio.pushed.
  apply list_fmap_ext. intros j i Hi.
  apply lookup_seqZ in Hi as [-> Hj].
  rewrite Z.land_spec, Z.shiftl_spec by lia.
  change 4294967295 with (Z.ones 32).
  rewrite Z.ones_spec_low by lia. rewrite andb_true_r. f_equal. lia.
Qed.

Lemma byte_bits_lane (w p : Z) :
  0 <= p ->
  byte_bits (lane w p) = (fun i => Z.testbit w (p + 7 - i)) <$> seqZ 0 8.
Proof.
  intros Hp. unfold byte_bits, lane.
  apply list_fmap_ext. intros j i Hi.
  apply lookup_seqZ in Hi as [-> Hj].
  rewrite Z.land_spec, Z.shiftr_spec by lia.
  change 255 with (Z.ones 8).
  rewrite Z.ones_spec_low by lia. rewrite andb_true_r. f_equal. lia.
Qed.

Lemma byte_chunk (w p th k : Z) :
  th - 1 - k = p + 7 ->
  (fun i => Z.testbit w (th - 1 - i)) <$> seqZ k 8 =
    (fun i => Z.testbit w (p + 7 - i)) <$> seqZ 0 8.
Proof.
  intros E. replace k with (k + 0) at 1 by lia.
  rewrite <- fmap_add_seqZ, <- list_fmap_compose.
  apply list_fmap_ext. intros _ i _. cbn. f_equal. lia.
Qed.

(** The 24 bits of a word of [ws2812] are its three lanes, the highest
    first; the 32 bits of a word of [sk6812] its four lanes. *)
Lemma wire_bits_24 (w : Z) :
  wire_bits 24 (Pio.pushed w 8) =
    byte_bits (lane w 16) ++ byte_bits (lane w 8) ++ byte_bits (lane w 0).
Proof.
  rewrite wire_bits_pushed, !byte_bits_lane by lia.
  replace (seqZ 0 24) with (seqZ 0 8 ++ seqZ 8 8 ++ seqZ 16 8) by reflexivity.
  rewrite !fmap_app.
  rewrite (byte_chunk w 16 24 0), (byte_chunk w 8 24 8),
    (byte_chunk w 0 24 16) by lia.
  reflexivity.
Qed.

Lemma wire_bits_32 (w : Z) :
  wire_bits 32 (Pio.pushed w 0) =
    byte_bits (lane w 24) ++ byte_bits (lane w 16) ++
    byte_bits (lane w 8) ++ byte_bits (lane w 0).
Proof.
  rewrite wire_bits_pushed, !byte_bits_lane by lia.
  replace (seqZ 0 32)
    with (seqZ 0 8 ++ seqZ 8 8 ++ seqZ 16 8 ++ seqZ 24 8) by reflexivity.
  rewrite !fmap_app.
  rewrite (byte_chunk w 24 32 0), (byte_chunk w 16 32 8),
    (byte_chunk w 8 32 16), (byte_chunk w 0 32 24) by lia.
  reflexivity.
Qed.

Lemma init_coherent (n sid pin : Z) (m : string) (d : Q) (s : t) :
  __init__ n sid pin m d = inr s ->
  coherent s /\ mode s = set_of_str m /\ sm_tx (sm s) = [] /\
  pixels s = replicate (Z.to_nat n) 0 /\ brightnessvalue s = 255 /\
  num_leds s = n.
Proof.
  unfold __init__, coherent. intros H.
  destruct (bool_decide ("W"%char ∈ set_of_str m)) eqn:W;
    repeat match type of H with
      | context [str_index ?c m] =>
          destruct (str_index c m); cbn [Py.bind] in H; [discriminate |]
      end;
    injection H as <-; cbn; rewrite W; repeat split; reflexivity.
Qed.

Lemma expected_0 (b : Z) : expected 0 b = 0.
Proof. rewrite <- scale_eq. apply scale_0. Qed.

(** The word of a pixel on the wire of a buffer with the mode and the shift
    table [__init__] makes from a valid mode: the scaled channels, one byte
    for each letter of the mode, in the order of the letters. *)
Lemma word_on_wire (n sid pin : Z) (m : string) (d : Q) (s0 s : t)
    (c : list Z) :
  valid_mode m ->
  __init__ n sid pin m d = inr s0 ->
  mode s = mode s0 -> shift s = shift s0 ->
  1 <= brightnessvalue s <= 255 ->
  pixel_colour c ->
  wire_bits (Pio.pull_thresh (program_of (sm_program (sm s0))))
            (Pio.pushed (word s c)
                        (if bool_decide ("W"%char ∈ mode s) then 0 else 8)) =
    concat (byte_bits <$> wire_bytes m (brightnessvalue s) c).
Proof.
  intros Hm Hi Hmode Hshift Hb [Hlen Hc].
  destruct (init_coherent _ _ _ _ _ _ Hi) as (Hp & Hms & _).
  destruct (init_valid n sid pin m d Hm) as (sh & pg & E & Ht).
  pose proof (init_lane_order _ _ _ _ _ _ Hm Hi) as L. cbv zeta in L.
  rewrite E in Hi. injection Hi as <-.
  cbn [mode shift sm sm_program] in *.
  assert (Ht' : lane_table (bool_decide ("W"%char ∈ mode s)) (shift s))
    by (rewrite Hmode, Hshift; exact Ht).
  pose proof (word_lanes s c Ht' Hb Hc) as W. cbv zeta in W.
  rewrite Hshift, Hmode in W. rewrite Hmode. unfold coherent in Hp.
  cbn [mode sm sm_program] in Hp. subst pg.
  assert (E3 : (if bool_decide (length c = 4%nat)
                then expected (chan c 3) (brightnessvalue s) else 0) =
               expected (chan c 3) (brightnessvalue s)).
  { destruct (bool_decide_reflect (length c = 4%nat)) as [| N];
      [reflexivity |].
    unfold chan. rewrite lookup_ge_None_2 by (destruct Hlen; lia).
    symmetry. apply expected_0. }
  rewrite E3 in W. clear E3 E Ht Ht'.
  destruct L as (LR & LG & LB & LW).
  rewrite LR, LG, LB, LW in W. clear LR LG LB LW.
  apply valid_mode_cases in Hm.
  vm_compute permutations in Hm. cbn in Hm.
  repeat (apply elem_of_cons in Hm as [Hm | Hm]; [subst m | ]).
  all: try (apply elem_of_nil in Hm; contradiction).
  all: match goal with |- context [bool_decide (?a ∈ set_of_str ?m)] =>
         let v := eval vm_compute in (bool_decide (a ∈ set_of_str m)) in
         replace (bool_decide (a ∈ set_of_str m)) with v in *
           by (vm_compute; reflexivity) end.
  all: cbn [str_index Ascii.eqb Bool.eqb String.length] in W.
  all: destruct W as (_ & WR & WG & WB & WW).
  all: cbn [program_of Pio.pull_thresh Pio.ws2812 Pio.sk6812].
  all: first [rewrite wire_bits_24 | rewrite wire_bits_32].
  all: unfold wire_bytes;
       cbn [list_ascii_of_string fmap list_fmap concat channel_of Ascii.eqb
            Bool.eqb].
  all: rewrite app_nil_r, <- ?app_assoc.
  all: repeat f_equal; first [exact WR | exact WG | exact WB | exact WW].
Qed.

(** [show] in terms of the FIFO. *)
Lemma show_fifo (s : t) :
  sized s ->
  fst (show s) = inr tt /\
  sm_program (sm (snd (show s))) = sm_program (sm s) /\
  fifo_of (sm (snd (show s))) =
    fifo_of (sm s) ++
    ((fun w => Pio.pushed w
                 (if bool_decide ("W"%char ∈ mode s) then 0 else 8)) <$>
       pixels s).
Proof.
  intros Hs. unfold sized in Hs.
  set (cut := if bool_decide ("W"%char ∈ mode s) then 0 else 8).
  assert (E : show s =
            (inr tt,
             with_sm (mkStateMachine (sm_id (sm s)) (sm_program (sm s))
                        (sm_freq (sm s)) (sm_pin (sm s)) (sm_active (sm s))
                        (sm_tx (sm s) ++ ((fun w => (w, cut)) <$> pixels s)))
                     s)).
  { unfold show, bind at 1 2, gets at 1 2, range. rewrite Z.sub_0_r, <- Hs.
    apply (show_loop cut (length (pixels s)) 0 s). reflexivity. }
  rewrite E. cbn [fst snd sm with_sm sm_program sm_tx]. unfold fifo_of.
  cbn [sm_tx]. rewrite fmap_app, <- list_fmap_compose.
  repeat split; reflexivity.
Qed.

End Wire.

(** X14.  The program of either kind, started on a FIFO of 32-bit words and
    given fuel for three instructions a bit, shifts out of every word its
    [pull_thresh] highest bits, the highest first and the words in order,
    each bit as the wave low 3 cycles, high 2, then high or low 5; it ends
    at the head of the loop with the FIFO empty, stalled in [out], whatever
    fuel is left. *)
Theorem pio_transmits (pg : pio_program) (ws : list Z) (fuel : nat) :
  Forall (fun w => 0 <= w < 2 ^ 32) ws ->
  (3 * Z.to_nat (Pio.pull_thresh (program_of pg)) * length ws <= fuel)%nat ->
  let p := program_of pg in
  let r := Pio.run fuel p (Pio.start ws) in
  fst r = concat (bit_wave <$> concat (wire_bits (Pio.pull_thresh p) <$> ws)) /\
  Pio.pc (snd r) = 0%nat /\
  Pio.fifo (snd r) = [] /\
  Pio.step p (snd r) = None.
Proof.
  intros Hws Hf p r. subst p r.
  destruct (run_fifo pg ws fuel Hws Hf) as (x & o & c & Hc & E).
  rewrite E. cbn [fst snd Pio.pc Pio.fifo].
  repeat split. rewrite (program_of_bit_loop pg). apply stalled. exact Hc.
Qed.

Lemma pio_transmits_witness :
  fst (Pio.run 100 Pio.ws2812 (Pio.start [Pio.pushed 5 8])) =
    concat (bit_wave <$> (replicate 21 false ++ [true; false; true])) /\
  Pio.step Pio.ws2812
    (snd (Pio.run 100 Pio.ws2812 (Pio.start [Pio.pushed 5 8]))) = None.
Proof.
  assert (Hws : Forall (fun w => 0 <= w < 2 ^ 32) [Pio.pushed 5 8])
    by (repeat constructor; vm_compute; discriminate).
  assert (Hf : (3 * Z.to_nat (Pio.pull_thresh (program_of ws2812)) * 1
                <= 100)%nat) by (vm_compute; lia).
  destruct (pio_transmits ws2812 [Pio.pushed 5 8] 100 Hws Hf)
    as (H1 & _ & _ & H4).
  split; [exact H1 | exact H4].
Defined.

(** X15.  The timing of a frame: every bit takes 10 cycles, so a frame of
    [n] words takes [10 * pull_thresh * n] cycles (1.25 microseconds a bit at
    the 8 MHz [__init__] asks for); the pin is high for 7 of the 10 cycles
    of a one and for 2 of those of a zero. *)
Theorem pio_timing (pg : pio_program) (ws : list Z) (fuel : nat) :
  Forall (fun w => 0 <= w < 2 ^ 32) ws ->
  (3 * Z.to_nat (Pio.pull_thresh (program_of pg)) * length ws <= fuel)%nat ->
  let p := program_of pg in
  let trace := fst (Pio.run fuel p (Pio.start ws)) in
  let bits := concat (wire_bits (Pio.pull_thresh p) <$> ws) in
  cycles trace = 10 * Pio.pull_thresh p * Z.of_nat (length ws) /\
  high_cycles trace =
    2 * Pio.pull_thresh p * Z.of_nat (length ws) + 5 * ones bits.
Proof.
  intros Hws Hf p trace bits. subst p trace bits.
  destruct (run_fifo pg ws fuel Hws Hf) as (x & o & c & Hc & E).
  rewrite E. cbn [fst].
  destruct (waves_cycles
              (concat (wire_bits (Pio.pull_thresh (program_of pg)) <$> ws)))
    as [C H].
  rewrite C, H, frame_bits_length.
  assert (T : 0 <= Pio.pull_thresh (program_of pg)) by (destruct pg; cbn; lia).
  rewrite Z2Nat.id by exact T. split; lia.
Qed.

Lemma pio_timing_witness :
  cycles (fst (Pio.run 100 Pio.ws2812 (Pio.start [Pio.pushed 5 8]))) = 240 /\
  high_cycles (fst (Pio.run 100 Pio.ws2812 (Pio.start [Pio.pushed 5 8])))
    = 58.
Proof.
  assert (Hws : Forall (fun w => 0 <= w < 2 ^ 32) [Pio.pushed 5 8])
    by (repeat constructor; vm_compute; discriminate).
  assert (Hf : (3 * Z.to_nat (Pio.pull_thresh (program_of ws2812)) * 1
                <= 100)%nat) by (vm_compute; lia).
  exact (pio_timing ws2812 [Pio.pushed 5 8] 100 Hws Hf).
Defined.

(** X16.  The order of the bytes on the wire.  On a buffer with the mode and
    the shift table [__init__] makes from a valid mode, at a brightness in
    [1,255] and for a colour of three or four channels in [0,255], the bits
    the program shifts out of the word [set_pixel] writes and [show] pushes
    are the scaled channels, one byte for each letter of the mode string, in
    the order of the letters, each byte with its highest bit first. *)
Theorem wire_order (n sid pin : Z) (m : string) (d : Q) (s0 s : t)
    (c : list Z) :
  valid_mode m ->
  __init__ n sid pin m d = inr s0 ->
  mode s = mode s0 -> shift s = shift s0 ->
  1 <= brightnessvalue s <= 255 ->
  pixel_colour c ->
  let cut := if bool_decide ("W"%char ∈ mode s) then 0 else 8 in
  wire_bits (Pio.pull_thresh (program_of (sm_program (sm s0))))
            (Pio.pushed (word s c) cut) =
    concat (byte_bits <$> wire_bytes m (brightnessvalue s) c).
Proof.
  intros Hm Hi Hmode Hshift Hb Hc cut. subst cut.
  exact (word_on_wire n sid pin m d s0 s c Hm Hi Hmode Hshift Hb Hc).
Qed.

Lemma wire_order_witness :
  wire_bits 24 (Pio.pushed (word grb4 [255; 173; 0]) 8) =
    byte_bits 173 ++ byte_bits 255 ++ byte_bits 0.
Proof.
  assert (Hm : valid_mode "GRB").
  { left. apply (proj1 (permutations_Permutation _ _)). vm_compute.
    set_solver. }
  assert (Hc : pixel_colour [255; 173; 0])
    by (split; [left; reflexivity | repeat constructor; lia]).
  assert (Hb : 1 <= brightnessvalue grb4 <= 255) by (cbn; lia).
  assert (Hi : __init__ 4 0 22 "GRB" (1 # 10000) = inr grb4)
    by (vm_compute; reflexivity).
  pose proof (wire_order 4 0 22 "GRB" (1 # 10000) grb4 grb4 [255; 173; 0]
                Hm Hi eq_refl eq_refl Hb Hc) as W.
  cbv zeta in W.
  replace (wire_bytes "GRB" (brightnessvalue grb4) [255; 173; 0])
    with [173; 255; 0] in W by (vm_compute; reflexivity).
  cbn [fmap list_fmap concat] in W. rewrite app_nil_r in W. exact W.
Defined.

(** X17.  From the constructor to the wire.  A buffer made with a valid mode
    and [n] LEDs, set to a brightness [b] in [1,255], filled with a colour of
    three or four channels in [0,255] and shown: the state machine, run on
    the FIFO [show] has filled, sends for each of the [n] LEDs the scaled
    channels of the colour in the order of the letters of the mode, and
    nothing else. *)
Theorem fill_show_on_wire (n sid pin : Z) (m : string) (d : Q) (s : t)
    (b : Z) (c : list Z) (fuel : nat) :
  valid_mode m ->
  0 <= n ->
  1 <= b <= 255 ->
  pixel_colour c ->
  __init__ n sid pin m d = inr s ->
  let r := (_ <- brightness (Some b) ;; _ <- fill c ;; show) s in
  let p := program_of (sm_program (sm (snd r))) in
  (3 * Z.to_nat (Pio.pull_thresh p) * Z.to_nat n <= fuel)%nat ->
  fst r = inr tt /\
  fst (Pio.run fuel p (Pio.start (fifo_of (sm (snd r))))) =
    concat (bit_wave <$>
      concat (replicate (Z.to_nat n)
                (concat (byte_bits <$> wire_bytes m b c)))).
Proof.
  intros Hm Hn Hb Hc Hi.
  pose proof (init_well_formed _ _ _ _ _ _ Hm Hn Hi) as Hwf.
  destruct (init_coherent _ _ _ _ _ _ Hi) as (_ & _ & Htx & Hpx & _ & Hnum).
  set (s1 := with_brightnessvalue b s).
  assert (Hwf1 : well_formed s1).
  { destruct Hwf as (H1 & H2 & H3). repeat split; try assumption; cbn; lia. }
  assert (E1 : (_ <- brightness (Some b) ;; _ <- fill c ;; show) s =
               show (with_pixels (replicate (length (pixels s1)) (word s1 c))
                                 s1)).
  { unfold bind at 1. unfold brightness, bind at 1, modify at 1, ret at 1.
    destruct (Z.ltb_spec b 1) as [? | _]; [lia |].
    destruct (Z.ltb_spec 255 b) as [? | _]; [lia |].
    fold s1. cbn [fst snd]. unfold bind at 1.
    rewrite (fill_word c s1 Hwf1 Hc). reflexivity. }
  rewrite E1. clear E1.
  set (s2 := with_pixels (replicate (length (pixels s1)) (word s1 c)) s1).
  assert (Hwf2 : well_formed s2)
    by (apply well_formed_with_pixels;
        [apply length_replicate | exact Hwf1]).
  destruct (show_fifo s2 (proj1 Hwf2)) as (R & P & F).
  cbv zeta. rewrite P, F. intros Hf.
  split; [exact R |].
  assert (Hlen : length (pixels s1) = Z.to_nat n)
    by (cbn; rewrite Hpx, length_replicate; reflexivity).
  assert (Hp2 : pixels s2 = replicate (Z.to_nat n) (word s1 c))
    by (cbn; rewrite Hpx, length_replicate; reflexivity).
  change (sm s2) with (sm s) in *. change (mode s2) with (mode s).
  unfold fifo_of at 1. rewrite Htx, Hp2, fmap_replicate. cbn [fmap list_fmap app].
  destruct (run_fifo (sm_program (sm s))
              (replicate (Z.to_nat n)
                 (Pio.pushed (word s1 c)
                    (if bool_decide ("W"%char ∈ mode s) then 0 else 8)))
              fuel) as (x & o & k & _ & E).
  { apply Forall_replicate, pushed_range. }
  { rewrite length_replicate. exact Hf. }
  rewrite E. cbn [fst]. rewrite fmap_replicate.
  change (mode s) with (mode s1).
  rewrite (word_on_wire n sid pin m d s s1 c Hm Hi eq_refl eq_refl)
    by (assumption || (cbn; lia)).
  reflexivity.
Qed.

Lemma fill_show_on_wire_witness :
  fst (Pio.run 300 Pio.ws2812
         (Pio.start
            (fifo_of (sm (snd ((_ <- brightness (Some 255) ;;
                                _ <- fill [255; 173; 0] ;; show) grb4)))))) =
    concat (bit_wave <$>
      concat (replicate 4 (byte_bits 173 ++ byte_bits 255 ++ byte_bits 0))).
Proof.
  assert (Hm : valid_mode "GRB").
  { left. apply (proj1 (permutations_Permutation _ _)). vm_compute.
    set_solver. }
  assert (Hc : pixel_colour [255; 173; 0])
    by (split; [left; reflexivity | repeat constructor; lia]).
  assert (Hi : __init__ 4 0 22 "GRB" (1 # 10000) = inr grb4)
    by (vm_compute; reflexivity).
  assert (Hn : 0 <= 4) by lia.
  assert (Hb : 1 <= 255 <= 255) by lia.
  pose proof (fill_show_on_wire 4 0 22 "GRB" (1 # 10000) grb4 255
                [255; 173; 0] 300 Hm Hn Hb Hc Hi) as W.
  cbv zeta in W.
  destruct W as [_ W2]; [vm_compute; lia |].
  replace (wire_bytes "GRB" 255 [255; 173; 0])
    with [173; 255; 0] in W2 by (vm_compute; reflexivity).
  exact W2.
Defined.

(** X18.  What [__init__] sets up for [show]: whenever it returns a buffer,
    the state machine runs [sk6812] when the mode has W and [ws2812] when it
    has not, at 8 MHz, it is active and nothing is in its FIFO; and the
    shift [show] hands to [put] and the threshold of the program add up to
    32, so the bits the program shifts out of a word are the lowest
    [pull_thresh] bits of the word in the array. *)
Theorem show_matches_program (n sid pin : Z) (m : string) (d : Q) (s : t)
    (w : Z) :
  __init__ n sid pin m d = inr s ->
  let cut := if bool_decide ("W"%char ∈ mode s) then 0 else 8 in
  let th := Pio.pull_thresh (program_of (sm_program (sm s))) in
  sm_program (sm s) =
    (if bool_decide ("W"%char ∈ mode s) then sk6812 else ws2812) /\
  sm_freq (sm s) = 8000000 /\
  sm_active (sm s) = true /\
  fifo_of (sm s) = [] /\
  th + cut = 32 /\
  wire_bits th (Pio.pushed w cut) =
    (fun i => Z.testbit w (th - 1 - i)) <$> seqZ 0 th.
Proof.
  intros Hi cut th.
  destruct (init_coherent _ _ _ _ _ _ Hi) as (Hp & Hm & Htx & _).
  assert (Hfa : sm_freq (sm s) = 8000000 /\ sm_active (sm s) = true).
  { unfold __init__ in Hi.
    destruct (bool_decide ("W"%char ∈ set_of_str m));
      repeat match type of Hi with
        | context [str_index ?c m] =>
            destruct (str_index c m); cbn [Py.bind] in Hi; [discriminate |]
        end;
      injection Hi as <-; split; reflexivity. }
  unfold coherent in Hp.
  assert (Hth : th + cut = 32)
    by (subst th cut; rewrite Hp;
        destruct (bool_decide ("W"%char ∈ mode s)); reflexivity).
  split; [exact Hp |]. split; [apply Hfa |]. split; [apply Hfa |].
  split; [unfold fifo_of; rewrite Htx; reflexivity |].
  split; [exact Hth |].
  apply wire_bits_pushed; [| exact Hth].
  subst cut. destruct (bool_decide ("W"%char ∈ mode s)); lia.
Qed.

Lemma show_matches_program_witness :
  sm_program (sm grb4) = ws2812 /\
  wire_bits 24 (Pio.pushed 5 8) =
    (fun i => Z.testbit 5 (24 - 1 - i)) <$> seqZ 0 24.
Proof.
  assert (Hi : __init__ 4 0 22 "GRB" (1 # 10000) = inr grb4)
    by (vm_compute; reflexivity).
  destruct (show_matches_program 4 0 22 "GRB" (1 # 10000) grb4 5 Hi)
    as (P & _ & _ & _ & _ & W).
  split; [exact P | exact W].
Defined.

(** ** The loops of [main.py] *)

Section Script.

Lemma show_run (s : t) : sized s -> show s = (inr tt, shown s).
Proof.
  intros Hs. unfold sized in Hs.
  unfold show, bind at 1 2, gets at 1 2, range. rewrite Z.sub_0_r, <- Hs.
  apply (show_loop _ (length (pixels s)) 0 s). reflexivity.
Qed.

Lemma same_setup_refl (s : t) : same_setup s s.
Proof. repeat split. Qed.

Lemma same_setup_trans (s1 s2 s3 : t) :
  same_setup s1 s2 -> same_setup s2 s3 -> same_setup s1 s3.
Proof.
  intros (A1 & A2 & A3 & A4 & A5) (B1 & B2 & B3 & B4 & B5).
  repeat split; congruence.
Qed.

Lemma same_setup_word (s s' : t) (c : list Z) :
  same_setup s s' -> word s' c = word s c.
Proof. intros (A1 & A2 & A3 & A4 & A5). unfold word. rewrite A1, A2, A4. reflexivity. Qed.

Lemma same_setup_well_formed (s s' : t) :
  same_setup s s' -> well_formed s -> well_formed s'.
Proof.
  intros (A1 & A2 & A3 & A4 & A5) (Hs & Ht & Hb).
  unfold well_formed, sized in *. rewrite A1, A2, A3, A4, A5. auto.
Qed.

Lemma frames_between_refl (s : t) : frames_between s s 0.
Proof. unfold frames_between. lia. Qed.

Lemma frames_between_trans (s1 s2 s3 : t) (a b : Z) :
  same_setup s1 s2 ->
  frames_between s1 s2 a -> frames_between s2 s3 b ->
  frames_between s1 s3 (a + b).
Proof.
  intros (_ & _ & _ & _ & L). unfold frames_between. rewrite L. lia.
Qed.

(** One write and the frame that follows it. *)
Lemma paint_step (i : Z) (c : list Z) (s : t) :
  well_formed s -> pixel_colour c ->
  0 <= i < Z.of_nat (length (pixels s)) ->
  (_ <- set_pixel i c ;; show) s =
    (inr tt, shown (with_pixels (<[Z.to_nat i := word s c]> (pixels s)) s)).
Proof.
  intros Hwf Hc Hi. unfold bind.
  rewrite (set_pixel_ok i c s Hwf Hc), subscript_in by lia.
  apply show_run. unfold sized. cbn. rewrite length_insert. apply Hwf.
Qed.

Lemma paint_step_setup (i : Z) (c : list Z) (s : t) :
  let s1 := shown (with_pixels (<[Z.to_nat i := word s c]> (pixels s)) s) in
  same_setup s s1 /\ frames_between s s1 1.
Proof.
  cbv zeta. unfold same_setup, frames_between, shown. cbn.
  rewrite length_app, length_fmap, !length_insert.
  repeat split. lia.
Qed.

(** The writes and frames over [k] indexes from [a], all within the array. *)
Lemma paint_range (c : list Z) (k : nat) :
  forall (a : Z) (s : t),
    well_formed s -> pixel_colour c ->
    0 <= a ->
    (k <> 0%nat -> a + Z.of_nat k <= Z.of_nat (length (pixels s))) ->
    exists s',
      for_each (seqZ a (Z.of_nat k))
               (fun i => _ <- set_pixel i c ;; show) s = (inr tt, s') /\
      same_setup s s' /\
      frames_between s s' (Z.of_nat k) /\
      forall j : nat,
        pixels s' !! j = if bool_decide (a <= Z.of_nat j < a + Z.of_nat k)
                         then Some (word s c) else pixels s !! j.
Proof.
  induction k as [| k IH]; intros a s Hs Hc Ha Hk.
  - exists s. split; [reflexivity |].
    split; [apply same_setup_refl |]. split; [apply frames_between_refl |].
    intros j. rewrite bool_decide_eq_false_2 by lia. reflexivity.
  - specialize (Hk ltac:(discriminate)).
    rewrite seqZ_cons by lia.
    replace (Z.pred (Z.of_nat (S k))) with (Z.of_nat k) by lia.
    cbn [for_each]. unfold bind at 1.
    rewrite (paint_step a c s Hs Hc) by lia.
    destruct (paint_step_setup a c s) as [S1 F1].
    set (s1 := shown (with_pixels (<[Z.to_nat a := word s c]> (pixels s)) s))
      in *.
    assert (L1 : length (pixels s1) = length (pixels s)) by apply S1.
    destruct (IH (Z.succ a) s1) as (s' & E & S2 & F2 & P);
      [exact (same_setup_well_formed s s1 S1 Hs) | exact Hc | lia
      | rewrite L1; lia |].
    exists s'. split; [exact E |].
    split; [exact (same_setup_trans _ _ _ S1 S2) |].
    split.
    { replace (Z.of_nat (S k)) with (1 + Z.of_nat k) by lia.
      exact (frames_between_trans _ _ _ _ _ S1 F1 F2). }
    intros j. rewrite P, (same_setup_word s s1 c S1).
    change (pixels s1) with (<[Z.to_nat a := word s c]> (pixels s)).
    destruct (decide (j = Z.to_nat a)) as [-> | NE].
    + rewrite bool_decide_eq_false_2 by lia.
      rewrite bool_decide_eq_true_2 by lia.
      apply list_lookup_insert_eq. lia.
    + rewrite list_lookup_insert_ne by congruence.
      destruct (decide (Z.succ a <= Z.of_nat j < Z.succ a + Z.of_nat k)).
      * rewrite !bool_decide_eq_true_2 by lia. reflexivity.
      * rewrite !bool_decide_eq_false_2 by lia. reflexivity.
Qed.

(** The same range painted with one colour after the other: the last colour
    stays. *)
Lemma paint_colours (a : Z) (k : nat) (cs : list (list Z)) :
  forall s : t,
    well_formed s -> Forall pixel_colour cs ->
    0 <= a ->
    (k <> 0%nat -> a + Z.of_nat k <= Z.of_nat (length (pixels s))) ->
    exists s',
      for_each cs (fun color =>
        for_each (seqZ a (Z.of_nat k))
                 (fun i => _ <- set_pixel i color ;; show)) s = (inr tt, s') /\
      same_setup s s' /\
      frames_between s s' (Z.of_nat (length cs) * Z.of_nat k) /\
      forall j : nat,
        pixels s' !! j =
          match last cs with
          | Some c => if bool_decide (a <= Z.of_nat j < a + Z.of_nat k)
                      then Some (word s c) else pixels s !! j
          | None => pixels s !! j
          end.
Proof.
  induction cs as [| c cs IH]; intros s Hs Hcs Ha Hk.
  - exists s. split; [reflexivity |].
    split; [apply same_setup_refl |]. split; [apply frames_between_refl |].
    reflexivity.
  - apply Forall_cons in Hcs as [Hc Hcs].
    cbn [for_each]. unfold bind at 1.
    destruct (paint_range c k a s Hs Hc Ha Hk) as (s1 & E1 & S1 & F1 & P1).
    rewrite E1.
    assert (L1 : length (pixels s1) = length (pixels s)) by apply S1.
    destruct (IH s1) as (s' & E & S2 & F2 & P);
      [exact (same_setup_well_formed s s1 S1 Hs) | exact Hcs | lia
      | rewrite L1; exact Hk |].
    exists s'. split; [exact E |].
    split; [exact (same_setup_trans _ _ _ S1 S2) |].
    split.
    { replace (Z.of_nat (length (c :: cs)) * Z.of_nat k)
        with (Z.of_nat k + Z.of_nat (length cs) * Z.of_nat k)
        by (cbn [length]; lia).
      exact (frames_between_trans _ _ _ _ _ S1 F1 F2). }
    intros j. rewrite P.
    destruct cs as [| c' cs']; [exact (P1 j) |].
    change (last (c :: c' :: cs')) with (last (c' :: cs')).
    destruct (last (c' :: cs')) as [cl |] eqn:El.
    + rewrite (same_setup_word s s1 cl S1), P1.
      destruct (bool_decide (a <= Z.of_nat j < a + Z.of_nat k)); reflexivity.
    + apply last_None in El. discriminate.
Qed.

Lemma colors_ok : Forall pixel_colour Main.colors.
Proof.
  unfold Main.colors. repeat constructor; lia.
Qed.

Lemma word_black (s : t) : word s [0; 0; 0] = 0.
Proof.
  unfold word, chan. cbn [lookup list_lookup default length].
  rewrite bool_decide_eq_false_2 by discriminate. cbn [andb].
  rewrite scale_0, !Z.shiftl_0_l. reflexivity.
Qed.

Lemma black_ok : pixel_colour [0; 0; 0].
Proof. split; [left; reflexivity | repeat constructor; lia]. Qed.

(** [fill((0,0,0))] and [show()] *)
Lemma off_run (s : t) :
  well_formed s ->
  (_ <- fill [0; 0; 0] ;; show) s =
    (inr tt, shown (with_pixels (replicate (length (pixels s)) 0) s)).
Proof.
  intros Hs. unfold bind. rewrite (fill_word _ s Hs black_ok), word_black.
  apply show_run. unfold sized. cbn. rewrite length_replicate. apply Hs.
Qed.

Lemma fifo_of_shown (s : t) :
  fifo_of (sm (shown s)) = fifo_of (sm s) ++
    ((fun w => Pio.pushed w
                 (if bool_decide ("W"%char ∈ mode s) then 0 else 8)) <$>
       pixels s).
Proof.
  unfold shown, fifo_of. cbn [sm with_sm sm_tx].
  rewrite fmap_app, <- list_fmap_compose. reflexivity.
Qed.

Lemma pushed_0 (k : Z) : Pio.pushed 0 k = 0.
Proof. unfold Pio.pushed. rewrite Z.shiftl_0_l. reflexivity. Qed.

Lemma seqZ_clip (m len : Z) : seqZ m len = seqZ m (Z.of_nat (Z.to_nat len)).
Proof. unfold seqZ. rewrite Nat2Z.id. reflexivity. Qed.

(** Each colour of a list written to its own index, from [a] on, with a
    frame after every write. *)
Lemma paint_each (cs : list (list Z)) :
  forall (a : Z) (s : t),
    well_formed s -> Forall pixel_colour cs ->
    0 <= a -> a + Z.of_nat (length cs) <= Z.of_nat (length (pixels s)) ->
    exists s',
      for_each (zip (seqZ a (Z.of_nat (length cs))) cs)
               (fun ic => _ <- set_pixel (fst ic) (snd ic) ;; show) s
        = (inr tt, s') /\
      same_setup s s' /\
      frames_between s s' (Z.of_nat (length cs)) /\
      forall j : nat,
        pixels s' !! j =
          if bool_decide (a <= Z.of_nat j < a + Z.of_nat (length cs))
          then word s <$> cs !! (j - Z.to_nat a)%nat
          else pixels s !! j.
Proof.
  induction cs as [| c cs IH]; intros a s Hs Hcs Ha Hk.
  - exists s. split; [reflexivity |].
    split; [apply same_setup_refl |]. split; [apply frames_between_refl |].
    intros j. rewrite bool_decide_eq_false_2 by (cbn [length]; lia).
    reflexivity.
  - apply Forall_cons in Hcs as [Hc Hcs]. cbn [length] in Hk |- *.
    rewrite seqZ_cons by lia.
    replace (Z.pred (Z.of_nat (S (length cs)))) with (Z.of_nat (length cs))
      by lia.
    cbn [zip zip_with for_each fst snd]. unfold bind at 1. cbn [fst snd].
    rewrite (paint_step a c s Hs Hc) by lia.
    destruct (paint_step_setup a c s) as [S1 F1].
    set (s1 := shown (with_pixels (<[Z.to_nat a := word s c]> (pixels s)) s))
      in *.
    assert (L1 : length (pixels s1) = length (pixels s)) by apply S1.
    destruct (IH (Z.succ a) s1) as (s' & E & S2 & F2 & P);
      [exact (same_setup_well_formed s s1 S1 Hs) | exact Hcs | lia
      | rewrite L1; lia |].
    exists s'. split; [exact E |].
    split; [exact (same_setup_trans _ _ _ S1 S2) |].
    split.
    { replace (Z.of_nat (S (length cs))) with (1 + Z.of_nat (length cs))
        by lia.
      exact (frames_between_trans _ _ _ _ _ S1 F1 F2). }
    intros j. rewrite P.
    change (pixels s1) with (<[Z.to_nat a := word s c]> (pixels s)).
    destruct (decide (j = Z.to_nat a)) as [-> | NE].
    + rewrite bool_decide_eq_false_2 by lia.
      rewrite bool_decide_eq_true_2 by lia.
      rewrite Nat.sub_diag. cbn [lookup list_lookup fmap option_fmap option_map].
      apply list_lookup_insert_eq. lia.
    + rewrite list_lookup_insert_ne by congruence.
      destruct (decide (Z.succ a <= Z.of_nat j
                        < Z.succ a + Z.of_nat (length cs))).
      * rewrite !bool_decide_eq_true_2 by lia.
        replace (j - Z.to_nat a)%nat with (S (j - Z.to_nat (Z.succ a)))
          by lia.
        cbn [lookup list_lookup].
        destruct (cs !! (j - Z.to_nat (Z.succ a))%nat) as [cj |];
          [| reflexivity].
        cbn. rewrite (same_setup_word s s1 cj S1). reflexivity.
      * rewrite !bool_decide_eq_false_2 by lia. reflexivity.
Qed.

(** The pass of [paint_each] from index 0, [n] times over. *)
Lemma paint_each_passes (cs : list (list Z)) (n : nat) :
  forall (m : Z) (s : t),
    well_formed s -> Forall pixel_colour cs ->
    (length cs <= length (pixels s))%nat ->
    exists s',
      for_each (seqZ m (Z.of_nat n)) (fun multiplier =>
        for_each (Main.enumerate cs)
                 (fun ic => _ <- set_pixel (fst ic) (snd ic) ;; show)) s
        = (inr tt, s') /\
      same_setup s s' /\
      frames_between s s' (Z.of_nat n * Z.of_nat (length cs)) /\
      forall j : nat,
        pixels s' !! j =
          if bool_decide (0 < n /\ j < length cs)%nat
          then word s <$> cs !! j
          else pixels s !! j.
Proof.
  induction n as [| n IH]; intros m s Hs Hcs Hk.
  - exists s. split; [reflexivity |].
    split; [apply same_setup_refl |]. split; [apply frames_between_refl |].
    intros j. rewrite bool_decide_eq_false_2 by lia. reflexivity.
  - rewrite seqZ_cons by lia.
    replace (Z.pred (Z.of_nat (S n))) with (Z.of_nat n) by lia.
    cbn [for_each]. unfold bind at 1. unfold Main.enumerate at 1.
    destruct (paint_each cs 0 s Hs Hcs) as (s1 & E1 & S1 & F1 & P1);
      [lia | lia |].
    rewrite E1.
    assert (L1 : length (pixels s1) = length (pixels s)) by apply S1.
    destruct (IH (Z.succ m) s1) as (s' & E & S2 & F2 & P);
      [exact (same_setup_well_formed s s1 S1 Hs) | exact Hcs
      | rewrite L1; lia |].
    exists s'. split; [exact E |].
    split; [exact (same_setup_trans _ _ _ S1 S2) |].
    split.
    { replace (Z.of_nat (S n) * Z.of_nat (length cs))
        with (Z.of_nat (length cs) + Z.of_nat n * Z.of_nat (length cs))
        by lia.
      exact (frames_between_trans _ _ _ _ _ S1 F1 F2). }
    intros j. rewrite P, P1. change (Z.to_nat 0) with 0%nat.
    rewrite Nat.sub_0_r.
    destruct (decide (j < length cs)%nat) as [Hj | Hj].
    + rewrite (bool_decide_eq_true_2 (0 <= Z.of_nat j < _)) by lia.
      rewrite (bool_decide_eq_true_2 (0 < S n /\ _)%nat) by lia.
      destruct (bool_decide (0 < n /\ j < length cs)%nat); [| reflexivity].
      destruct (cs !! j) as [cj |]; [| reflexivity].
      cbn. rewrite (same_setup_word s s1 cj S1). reflexivity.
    + rewrite !bool_decide_eq_false_2 by lia. reflexivity.
Qed.

(** The loop of [rainbow_run] with fuel for every pass that is left. *)
Lemma rainbow_loop_run (fuel : nat) :
  forall (count n : Z) (s : t),
    well_formed s -> Main.numpix <= num_leds s ->
    (Z.to_nat (count + 1 - n) <= fuel)%nat ->
    exists s',
      Main.rainbow_loop fuel count n s = (inr true, s') /\
      same_setup s s' /\
      frames_between s s' (13 * Main.numpix * Z.max 0 (count + 1 - n)).
Proof.
  induction fuel as [| fuel IH]; intros count n s Hs Hn Hf.
  - cbn [Main.rainbow_loop].
    destruct (Z.leb_spec n count) as [? | Hgt]; [lia |].
    exists s. split; [reflexivity |]. split; [apply same_setup_refl |].
    replace (Z.max 0 (count + 1 - n)) with 0 by lia.
    rewrite Z.mul_0_r. apply frames_between_refl.
  - cbn [Main.rainbow_loop].
    destruct (Z.leb_spec n count) as [Hle | Hgt].
    + unfold bind at 1, range. rewrite Z.sub_0_r.
      assert (Hlen : Z.of_nat (length (pixels s)) = num_leds s) by apply Hs.
      destruct (paint_colours 0 (Z.to_nat Main.numpix) Main.colors s Hs
                  colors_ok) as (s1 & E1 & S1 & F1 & _).
      { lia. }
      { rewrite Z2Nat.id by (vm_compute; discriminate). lia. }
      rewrite Z2Nat.id in E1 by (vm_compute; discriminate).
      rewrite E1.
      destruct (IH count (n + 1) s1) as (s' & E & S2 & F2);
        [exact (same_setup_well_formed s s1 S1 Hs)
        | destruct S1 as (_ & _ & -> & _); exact Hn | lia |].
      exists s'. split; [exact E |].
      split; [exact (same_setup_trans _ _ _ S1 S2) |].
      replace (13 * Main.numpix * Z.max 0 (count + 1 - n))
        with (Z.of_nat (length Main.colors) * Z.of_nat (Z.to_nat Main.numpix)
              + 13 * Main.numpix * Z.max 0 (count + 1 - (n + 1)))
        by (change (Z.of_nat (length Main.colors)) with 13;
            change (Z.of_nat (Z.to_nat Main.numpix)) with 212;
            change Main.numpix with 212; lia).
      exact (frames_between_trans _ _ _ _ _ S1 F1 F2).
    + exists s. split; [reflexivity |]. split; [apply same_setup_refl |].
      replace (Z.max 0 (count + 1 - n)) with 0 by lia.
      rewrite Z.mul_0_r. apply frames_between_refl.
Qed.

Lemma off_setup (s : t) :
  let s1 := shown (with_pixels (replicate (length (pixels s)) 0) s) in
  same_setup s s1 /\ frames_between s s1 1.
Proof.
  cbv zeta. unfold same_setup, frames_between, shown. cbn.
  rewrite length_app, length_fmap, !length_replicate.
  repeat split. lia.
Qed.

Lemma main_strip_run : Main.strip = inr main_strip.
Proof. vm_compute. reflexivity. Qed.

Lemma main_strip_well_formed : well_formed main_strip.
Proof.
  split; [vm_compute; reflexivity |]. split; [| cbn; lia].
  replace (bool_decide ("W"%char ∈ mode main_strip)) with false
    by (vm_compute; reflexivity).
  exists 1, 2, 0, 0. repeat split; (reflexivity || discriminate || lia).
Qed.

End Script.

(** X19.  [segment(start, end)] on a well-formed strip, with [0 <= start] and
    [end <= num_leds]: the call returns normally; afterwards the pixels from
    [start] up to [end - 1] hold the word of the last colour of [colors],
    [pink4], and no other pixel has changed (none at all when
    [end <= start]); the mode, the shift table, the brightness and the length
    are as before, and 13 frames for each pixel of the range went to the
    state machine. *)
Theorem segment_paints (start end_ : Z) (s : t) :
  well_formed s ->
  0 <= start ->
  end_ <= num_leds s ->
  let r := Main.segment start end_ s in
  fst r = inr tt /\
  same_setup s (snd r) /\
  (forall j : nat,
     pixels (snd r) !! j =
       if bool_decide (start <= Z.of_nat j < end_)
       then Some (word s Main.pink4) else pixels s !! j) /\
  frames_between s (snd r) (13 * Z.max 0 (end_ - start)).
Proof.
  intros Hs Hst Hen r. subst r.
  assert (Hlen : Z.of_nat (length (pixels s)) = num_leds s) by apply Hs.
  unfold Main.segment, range. rewrite (seqZ_clip start (end_ - start)).
  destruct (paint_colours start (Z.to_nat (end_ - start)) Main.colors s Hs
              colors_ok Hst) as (s' & E & S & F & P); [lia |].
  rewrite E. cbn [fst snd].
  split; [reflexivity |]. split; [exact S |]. split.
  - intros j. rewrite P. change (last Main.colors) with (Some Main.pink4).
    cbv beta iota.
    destruct (decide (start <= Z.of_nat j < end_)).
    + rewrite !bool_decide_eq_true_2 by lia. reflexivity.
    + rewrite !bool_decide_eq_false_2 by lia. reflexivity.
  - replace (13 * Z.max 0 (end_ - start))
      with (Z.of_nat (length Main.colors) * Z.of_nat (Z.to_nat (end_ - start)))
      by (change (Z.of_nat (length Main.colors)) with 13; lia).
    exact F.
Qed.

Lemma segment_paints_witness :
  fst (Main.segment 3 7 main_strip) = inr tt /\
  pixels (snd (Main.segment 3 7 main_strip)) !! 5%nat =
    Some (word main_strip Main.pink4) /\
  pixels (snd (Main.segment 3 7 main_strip)) !! 7%nat =
    pixels main_strip !! 7%nat.
Proof.
  assert (H0 : 0 <= 3) by lia.
  assert (H1 : 7 <= num_leds main_strip) by (cbn; lia).
  destruct (segment_paints 3 7 main_strip main_strip_well_formed H0 H1)
    as (R & _ & P & _).
  split; [exact R |]. split; [exact (P 5%nat) | exact (P 7%nat)].
Defined.

(** X20.  [segment(start, end)] with [end] beyond the strip, for
    [0 <= start <= num_leds < end]: the call raises [IndexError] in the pass
    of the first colour, [red], after it has written every pixel from
    [start] to the end of the strip and sent a frame for each; no other pixel
    has changed. *)
Theorem segment_overrun (start end_ : Z) (s : t) :
  well_formed s ->
  0 <= start <= num_leds s ->
  num_leds s < end_ ->
  let r := Main.segment start end_ s in
  fst r = inl IndexError /\
  same_setup s (snd r) /\
  (forall j : nat,
     pixels (snd r) !! j =
       if bool_decide (start <= Z.of_nat j < num_leds s)
       then Some (word s Main.red) else pixels s !! j) /\
  frames_between s (snd r) (num_leds s - start).
Proof.
  intros Hs Hst Hen r. subst r.
  assert (Hlen : Z.of_nat (length (pixels s)) = num_leds s) by apply Hs.
  assert (Hred : pixel_colour Main.red)
    by (split; [left; reflexivity | repeat constructor; lia]).
  destruct (paint_range Main.red (Z.to_nat (num_leds s - start)) start s Hs
              Hred) as (s' & E & S & F & P); [lia | lia |].
  pose proof (same_setup_well_formed s s' S Hs) as Hs'.
  assert (L : length (pixels s') = length (pixels s)) by apply S.
  assert (R : Main.segment start end_ s = (inl IndexError, s')).
  { unfold Main.segment, range, Main.colors. cbn [for_each].
    unfold bind at 1.
    replace (end_ - start)
      with (Z.of_nat (Z.to_nat (num_leds s - start)) + (end_ - num_leds s))
      by lia.
    rewrite seqZ_app by lia. rewrite for_each_app, E.
    rewrite seqZ_cons by lia. cbn [for_each]. unfold bind at 1 2.
    rewrite (set_pixel_ok _ Main.red s' Hs' Hred).
    rewrite subscript_out by (rewrite L; lia).
    reflexivity. }
  rewrite R. cbn [fst snd].
  split; [reflexivity |]. split; [exact S |]. split.
  - intros j. rewrite P.
    destruct (decide (start <= Z.of_nat j < num_leds s)) as [Hj | Hj].
    + rewrite !bool_decide_eq_true_2 by lia. reflexivity.
    + rewrite !bool_decide_eq_false_2 by lia. reflexivity.
  - replace (num_leds s - start)
      with (Z.of_nat (Z.to_nat (num_leds s - start))) by lia.
    exact F.
Qed.

Lemma segment_overrun_witness :
  fst (Main.segment 200 213 main_strip) = inl IndexError /\
  pixels (snd (Main.segment 200 213 main_strip)) !! 211%nat =
    Some (word main_strip Main.red).
Proof.
  assert (H0 : 0 <= 200 <= num_leds main_strip) by (cbn; lia).
  assert (H1 : num_leds main_strip < 213) by (cbn; lia).
  destruct (segment_overrun 200 213 main_strip main_strip_well_formed H0 H1)
    as (R & _ & P & _).
  split; [exact R |]. exact (P 211%nat).
Defined.

(** X21.  [rainbow_off] on a well-formed strip returns normally, leaves
    every pixel at 0 whatever the brightness, and hands one frame of zero
    words to the state machine. *)
Theorem rainbow_off_dark (s : t) :
  well_formed s ->
  let r := Main.rainbow_off s in
  fst r = inr tt /\
  same_setup s (snd r) /\
  pixels (snd r) = replicate (Z.to_nat (num_leds s)) 0 /\
  fifo_of (sm (snd r)) =
    fifo_of (sm s) ++ replicate (Z.to_nat (num_leds s)) 0.
Proof.
  intros Hs r. subst r. unfold Main.rainbow_off.
  assert (Hlen : length (pixels s) = Z.to_nat (num_leds s))
    by (destruct Hs as (Hz & _); unfold sized in Hz; lia).
  rewrite (off_run s Hs). cbn [fst snd].
  split; [reflexivity |]. split; [apply off_setup |].
  rewrite fifo_of_shown. cbn [pixels with_pixels sm].
  rewrite Hlen, fmap_replicate, pushed_0. split; reflexivity.
Qed.

Lemma rainbow_off_dark_witness :
  pixels (snd (Main.rainbow_off main_strip)) = replicate 212 0 /\
  fifo_of (sm (snd (Main.rainbow_off main_strip))) = replicate 212 0.
Proof.
  destruct (rainbow_off_dark main_strip main_strip_well_formed)
    as (_ & _ & P & F).
  split; [exact P | exact F].
Defined.

(** X22.  [rainbow_static] on a well-formed strip of at least 13 pixels
    returns normally after [212 // 13 = 16] passes of 13 writes, a frame
    after each.  The passes all write the same pixels: afterwards pixel [j]
    holds the word of [colors[j]] for [j < 13], and no pixel from 13 on has
    changed. *)
Theorem rainbow_static_first (s : t) :
  well_formed s ->
  13 <= num_leds s ->
  let r := Main.rainbow_static s in
  fst r = inr tt /\
  same_setup s (snd r) /\
  (forall j : nat,
     pixels (snd r) !! j =
       if bool_decide (j < 13)%nat
       then word s <$> Main.colors !! j else pixels s !! j) /\
  frames_between s (snd r) 208.
Proof.
  intros Hs Hn r. subst r.
  assert (Hlen : Z.of_nat (length (pixels s)) = num_leds s) by apply Hs.
  destruct (paint_each_passes Main.colors 16 0 s Hs colors_ok)
    as (s' & E & S & F & P); [cbn [length Main.colors]; lia |].
  assert (R : Main.rainbow_static s = (inr tt, s')).
  { unfold Main.rainbow_static, bind at 1, lift at 1.
    change (floordiv Main.numpix (Z.of_nat (length Main.colors)))
      with (@inr exn Z 16).
    cbv beta iota. unfold range. change (16 - 0) with (Z.of_nat 16).
    exact E. }
  rewrite R. cbn [fst snd].
  split; [reflexivity |]. split; [exact S |]. split; [| exact F].
  intros j. rewrite P. change (length Main.colors) with 13%nat.
  destruct (decide (j < 13)%nat).
  - rewrite !bool_decide_eq_true_2 by lia. reflexivity.
  - rewrite !bool_decide_eq_false_2 by lia. reflexivity.
Qed.

Lemma rainbow_static_first_witness :
  fst (Main.rainbow_static main_strip) = inr tt /\
  pixels (snd (Main.rainbow_static main_strip)) !! 12%nat =
    Some (word main_strip Main.pink4) /\
  pixels (snd (Main.rainbow_static main_strip)) !! 13%nat = Some 0.
Proof.
  assert (H : 13 <= num_leds main_strip) by (cbn; lia).
  destruct (rainbow_static_first main_strip main_strip_well_formed H)
    as (R & _ & P & _).
  split; [exact R |]. split; [exact (P 12%nat) | exact (P 13%nat)].
Defined.

(** X23.  [rainbow_run(count)] on a well-formed strip of at least [numpix]
    pixels: with fuel for [count] passes of the [while] loop the call comes
    to its end and returns normally, whatever [count] is (no pass at all
    for [count < 1]); afterwards every pixel is 0, the last frame handed to
    the state machine is a frame of zero words, and [13 * numpix] frames
    for each pass went before it. *)
Theorem rainbow_run_ends_dark (count : Z) (fuel : nat) (s : t) :
  well_formed s ->
  Main.numpix <= num_leds s ->
  (Z.to_nat count <= fuel)%nat ->
  let r := Main.rainbow_run fuel count s in
  fst r = inr true /\
  same_setup s (snd r) /\
  pixels (snd r) = replicate (Z.to_nat (num_leds s)) 0 /\
  frames_between s (snd r) (13 * Main.numpix * Z.max 0 count + 1) /\
  exists earlier,
    fifo_of (sm (snd r)) = earlier ++ replicate (Z.to_nat (num_leds s)) 0.
Proof.
  intros Hs Hn Hf r. subst r.
  destruct (rainbow_loop_run fuel count 1 s Hs Hn) as (s1 & E1 & S1 & F1);
    [lia |].
  pose proof (same_setup_well_formed s s1 S1 Hs) as Hs1.
  assert (R : Main.rainbow_run fuel count s =
              (inr true,
               shown (with_pixels (replicate (length (pixels s1)) 0) s1))).
  { unfold Main.rainbow_run, bind at 1. rewrite E1.
    pose proof (off_run s1 Hs1) as E2. unfold bind in E2 |- *.
    destruct (fill [0; 0; 0] s1) as [[e | []] s2] eqn:Ef;
      [discriminate E2 |].
    rewrite E2. reflexivity. }
  rewrite R. cbn [fst snd].
  destruct (off_setup s1) as [S2 F2].
  assert (Hlen : length (pixels s1) = Z.to_nat (num_leds s)).
  { destruct S1 as (_ & _ & _ & _ & ->).
    destruct Hs as (Hz & _). unfold sized in Hz. lia. }
  split; [reflexivity |].
  split; [exact (same_setup_trans _ _ _ S1 S2) |].
  split; [cbn; rewrite Hlen; reflexivity |].
  split.
  - replace (count + 1 - 1) with count in F1 by lia.
    exact (frames_between_trans _ _ _ _ _ S1 F1 F2).
  - exists (fifo_of (sm s1)). rewrite fifo_of_shown.
    cbn [pixels with_pixels sm].
    rewrite Hlen, fmap_replicate, pushed_0. reflexivity.
Qed.

Lemma rainbow_run_ends_dark_witness :
  fst (Main.rainbow_run 2 2 main_strip) = inr true /\
  pixels (snd (Main.rainbow_run 2 2 main_strip)) = replicate 212 0.
Proof.
  assert (H : Main.numpix <= num_leds main_strip) by (vm_compute; discriminate).
  assert (Hf : (Z.to_nat 2 <= 2)%nat) by (vm_compute; lia).
  destruct (rainbow_run_ends_dark 2 2 main_strip main_strip_well_formed H Hf)
    as (R & _ & P & _).
  split; [exact R | exact P].
Defined.

(** ** [segment_gradient] *)

Section Segments.









(** With no step between the colours, the first fraction divides by zero
    before anything is written. *)
Lemma segment_no_step (c0 c1 : list Z) (rest : list (list Z))
    (pixel1 pixel2 : Z) (rv rb : bool) (s : t) :
  pixel1 <= 0 -> 0 <= pixel2 ->
  segment_outer (c0 :: c1 :: rest) pixel2 0 rb 0 (c0 :: c1 :: rest)
                (mkLocals pixel1 0 rv) s
    = (inl ZeroDivisionError, s).
Proof.
  intros H1 H2. cbn [segment_outer]. unfold bind at 1.
  cbn [end_pixel start_pixel]. unfold range.
  rewrite seqZ_cons by lia. cbn [segment_inner]. unfold bind at 1.
  unfold segment_step. cbv zeta. unfold bind at 1, lift at 1.
  change (0 * 0 + 0) with 0. change (0 * 0) with 0. change (0 + 1) with 1.
  unfold getcolor. rewrite !subscript_in by (cbn [length]; lia).
  cbn [Py.bind lookup list_lookup Z.to_nat Pos.to_nat Pos.iter_op Nat.add].
  rewrite Z.geb_leb.
  destruct (Z.leb_spec pixel2 0) as [Hle | Hgt]; cbn [fst snd].
  - assert (pixel2 = 0) by lia. subst pixel2. reflexivity.
  - reflexivity.
Qed.

End Segments.



(** X25.  The edges of [segment_gradient].  With [pixel1 = pixel2] the call
    returns at once and changes nothing.  Otherwise, with an empty list of
    colours the step [(pixel2 + 1) // 0] raises ZeroDivisionError; and with
    more colours than pixels ([pixel1 <= 0 <= pixel2] and
    [pixel2 + 1 < len(color_list)]) the step is 0 and the first fraction
    raises ZeroDivisionError.  In both cases nothing has been written. *)
Theorem segment_gradient_edges (cl : list (list Z)) (pixel1 pixel2 : Z)
    (rv rb : bool) (s : t) :
  (pixel1 = pixel2 ->
     segment_gradient cl pixel1 pixel2 rv rb s = (inr tt, s)) /\
  (pixel1 <> pixel2 -> cl = [] ->
     segment_gradient cl pixel1 pixel2 rv rb s = (inl ZeroDivisionError, s)) /\
  (pixel1 <> pixel2 -> pixel1 <= 0 -> 0 <= pixel2 ->
   pixel2 + 1 < Z.of_nat (length cl) ->
     segment_gradient cl pixel1 pixel2 rv rb s = (inl ZeroDivisionError, s)).
Proof.
  unfold segment_gradient. split; [| split].
  - intros ->. rewrite Z.sub_diag. reflexivity.
  - intros Hne ->. destruct (Z.eqb_spec (pixel2 - pixel1) 0); [lia |].
    reflexivity.
  - intros Hne H1 H2 Hl.
    destruct (Z.eqb_spec (pixel2 - pixel1) 0); [lia |].
    destruct cl as [| c0 [| c1 rest]]; cbn [length] in Hl; [lia | lia |].
    unfold bind at 1, lift at 1, floordiv.
    destruct (Z.eqb_spec (Z.of_nat (length (c0 :: c1 :: rest))) 0) as [Z0 | _];
      [cbn [length] in Z0; lia |].
    cbn [length]. rewrite Z.div_small by lia.
    apply segment_no_step; assumption.
Qed.

Lemma segment_gradient_edges_witness :
  segment_gradient [r1; g1] 7 7 true false grb16 = (inr tt, grb16) /\
  segment_gradient [] 0 15 true false grb16 = (inl ZeroDivisionError, grb16) /\
  segment_gradient [r1; y2; g1; b5] 0 2 true false grb16
    = (inl ZeroDivisionError, grb16).
Proof.
  destruct (segment_gradient_edges [r1; g1] 7 7 true false grb16)
    as (A & _ & _).
  destruct (segment_gradient_edges [] 0 15 true false grb16) as (_ & B & _).
  destruct (segment_gradient_edges [r1; y2; g1; b5] 0 2 true false grb16)
    as (_ & _ & C).
  split; [apply A; reflexivity |].
  split; [apply B; [discriminate | reflexivity] |].
  apply C; [discriminate | lia | lia | cbn; lia].
Defined.


